(** * Batch reservation and expiry-risk engines of the pharmacy POS

    A shallow embedding of [app/services/inventory_service.py] and
    [app/services/expiry_service.py], with the parts of the models and of the
    configuration they read.

    Modelling conventions.
    - Python [int] is [Z]; a [date] is its day ordinal, a [Z], so that
      [(d1 - d2).days] is a subtraction.
    - [Decimal] and [float] values are exact rationals [Q]: every float
      operation is read as the exact operation it approximates.
    - A table is a finite map from the primary key [id] to the row; a query
      without ORDER BY yields the rows by ascending primary key.
    - ORM objects are shared and mutable: a list of query results is a list of
      primary keys, and attribute reads and writes go through the table. *)

From Stdlib Require Import ZArith QArith Qminmax Qround Lia Lqa.
From stdpp Require Import gmap strings pretty list sorting fin_maps.

Local Open Scope string_scope.
Local Open Scope Z_scope.

(** ** Configuration ([app/config.py]) *)

Record Settings := {
  expiry_alert_6_months : Z;
  expiry_alert_3_months : Z;
  expiry_alert_1_month : Z;
  expiry_alert_1_week : Z
}.

Definition default_settings : Settings := {|
  expiry_alert_6_months := 180;
  expiry_alert_3_months := 90;
  expiry_alert_1_month := 30;
  expiry_alert_1_week := 7
|}.

(** ** Models ([app/models/inventory.py], [app/models/product.py]) *)

Inductive MovementType :=
  | PURCHASE | SALE | ADJUSTMENT | RETURN | EXPIRED | DAMAGED | TRANSFER.

Record InventoryBatch := {
  batch_number : string;
  initial_quantity : Z;
  current_quantity : Z;
  reserved_quantity : Z;
  cost_per_unit : Q;
  selling_price_per_unit : Q;
  expiry_date : Z;
  is_active : bool;
  is_expired : bool;
  product_id : Z
}.

Record Product := {
  name : string;
  product_is_active : bool;
  is_controlled_substance : bool
}.

Record StockMovement := {
  movement_type : MovementType;
  movement_quantity : Z;
  unit_cost : option Q;
  reference_number : option string;
  notes : option string;
  movement_product_id : Z;
  movement_batch_id : option Z;
  user_id : Z
}.

(** Field updates of a batch object. *)
Definition set_reserved_quantity (r : Z) (b : InventoryBatch) : InventoryBatch :=
  {| batch_number := batch_number b; initial_quantity := initial_quantity b;
     current_quantity := current_quantity b; reserved_quantity := r;
     cost_per_unit := cost_per_unit b;
     selling_price_per_unit := selling_price_per_unit b;
     expiry_date := expiry_date b; is_active := is_active b;
     is_expired := is_expired b; product_id := product_id b |}.

Definition set_current_quantity (c : Z) (b : InventoryBatch) : InventoryBatch :=
  {| batch_number := batch_number b; initial_quantity := initial_quantity b;
     current_quantity := c; reserved_quantity := reserved_quantity b;
     cost_per_unit := cost_per_unit b;
     selling_price_per_unit := selling_price_per_unit b;
     expiry_date := expiry_date b; is_active := is_active b;
     is_expired := is_expired b; product_id := product_id b |}.

Definition set_is_expired (e : bool) (b : InventoryBatch) : InventoryBatch :=
  {| batch_number := batch_number b; initial_quantity := initial_quantity b;
     current_quantity := current_quantity b;
     reserved_quantity := reserved_quantity b;
     cost_per_unit := cost_per_unit b;
     selling_price_per_unit := selling_price_per_unit b;
     expiry_date := expiry_date b; is_active := is_active b;
     is_expired := e; product_id := product_id b |}.

(** [InventoryBatch.available_quantity] *)
Definition available_quantity (b : InventoryBatch) : Z :=
  current_quantity b - reserved_quantity b.

(** The session: the two tables and the audit trail, oldest movement first. *)
Record Session := {
  batches : gmap Z InventoryBatch;
  products : gmap Z Product;
  movements : list StockMovement
}.

Definition with_batches (bs : gmap Z InventoryBatch) (db : Session) : Session :=
  {| batches := bs; products := products db; movements := movements db |}.

Definition add_movement (m : StockMovement) (db : Session) : Session :=
  {| batches := batches db; products := products db;
     movements := movements db ++ [m] |}.

(** ** Expiry classification ([ExpiryService]) *)

Inductive ExpiryAlertLevel := CRITICAL | HIGH | MEDIUM | LOW | INFO.

#[global] Instance ExpiryAlertLevel_eq_dec : EqDecision ExpiryAlertLevel.
Proof. solve_decision. Defined.

(** [ExpiryAlertLevel.value] *)
Definition level_value (l : ExpiryAlertLevel) : string :=
  match l with
  | CRITICAL => "critical"
  | HIGH => "high"
  | MEDIUM => "medium"
  | LOW => "low"
  | INFO => "info"
  end.

Definition _calculate_alert_level (settings : Settings) (days_until_expiry : Z)
  : ExpiryAlertLevel :=
  if days_until_expiry <=? expiry_alert_1_week settings then CRITICAL
  else if days_until_expiry <=? expiry_alert_1_month settings then HIGH
  else if days_until_expiry <=? expiry_alert_3_months settings then MEDIUM
  else if days_until_expiry <=? expiry_alert_6_months settings then LOW
  else INFO.

Definition _get_recommended_action (days_until_expiry quantity : Z)
  (alert_level : ExpiryAlertLevel) : string :=
  match alert_level with
  | CRITICAL =>
      if 50 <? quantity
      then "URGENT: Consider bulk discount sale or return to supplier"
      else "URGENT: Prioritize sale or mark for disposal"
  | HIGH =>
      if 100 <? quantity
      then "Implement promotional pricing or contact supplier for return"
      else "Prioritize in sales recommendations"
  | MEDIUM => "Monitor closely and consider promotional strategies"
  | LOW => "Plan inventory rotation and adjust reorder quantities"
  | INFO => "Monitor for future planning"
  end.

(** The recommended-action table as the specification words it. *)
Definition spec_recommended_action (quantity : Z) (alert_level : ExpiryAlertLevel)
  : string :=
  match alert_level with
  | CRITICAL =>
      if 50 <? quantity then "bulk discount sale or return to supplier"
      else "prioritize sale or mark for disposal"
  | HIGH =>
      if 100 <? quantity
      then "promotional pricing or contact supplier for return"
      else "prioritize in sales recommendations"
  | MEDIUM => "monitor closely and consider promotional strategies"
  | LOW => "plan inventory rotation and adjust reorder quantities"
  | INFO => "monitor for future planning"
  end.

(** ** Priority score ([ExpiryService._calculate_priority_score]) *)

(** Rounding to the nearest integer, ties to the even one. *)
Definition round_half_even (x : Q) : Z :=
  let f := Qfloor x in
  match (x - inject_Z f ?= 1 # 2)%Q with
  | Lt => f
  | Gt => f + 1
  | Eq => if Z.even f then f else f + 1
  end.

(** Python's [round(x, ndigits)]. *)
Definition round (x : Q) (ndigits : nat) : Q :=
  let p := inject_Z (10 ^ Z.of_nat ndigits) in
  (inject_Z (round_half_even (x * p)) / p)%Q.

Definition _calculate_priority_score (days_until_expiry quantity : Z)
  (unit_value : Q) (is_controlled : bool) : Q :=
  let urgency_score := (inject_Z (Z.max 0 (365 - days_until_expiry)) / 365)%Q in
  let total_value := (inject_Z quantity * unit_value)%Q in
  let value_score := Qmin (total_value / 1000) 1 in
  let quantity_score := Qmin (inject_Z quantity / 100) 1 in
  let controlled_multiplier := (if is_controlled then 1.5 else 1)%Q in
  let priority_score :=
    ((urgency_score * 0.5 + value_score * 0.3 + quantity_score * 0.2)
     * controlled_multiplier)%Q in
  round priority_score 3.

(** ** Sorting and table scans *)

Section stable_sort.
Context {A : Type} (before : A → A → bool).

(** [before x y] holds when [x], met first, stays in front of [y]. *)
Fixpoint insert_sorted (x : A) (l : list A) : list A :=
  match l with
  | [] => [x]
  | y :: l' => if before x y then x :: l else y :: insert_sorted x l'
  end.

Definition stable_sort (l : list A) : list A := foldr insert_sorted [] l.

End stable_sort.

(** The rows of a table, by ascending primary key. *)
Definition table_rows {A : Type} (t : gmap Z A) : list (Z * A) :=
  stable_sort (λ x y, x.1 <=? y.1) (map_to_list t).

(** ** Inventory service ([InventoryService]) *)

Inductive exn :=
  | ValueError (need available : Z)
      (* "Insufficient stock. Need {need}, available {available}" *)
  | StopIteration.

Inductive outcome (A : Type) :=
  | Returned (a : A)
  | Raised (e : exn).
Arguments Returned {A} a.
Arguments Raised {A} e.

Record Reservation := {
  r_batch_id : Z;
  r_batch_number : string;
  r_quantity : Z;
  r_unit_price : Q;
  r_expiry_date : Z
}.

Definition record_stock_movement (product_id : Z) (quantity : Z)
  (movement_type : MovementType) (user_id : Z) (batch_id : option Z)
  (unit_cost : option Q) (reference_number notes : option string)
  (db : Session) : StockMovement * Session :=
  let movement := {|
    movement_type := movement_type; movement_quantity := quantity;
    unit_cost := unit_cost; reference_number := reference_number;
    notes := notes; movement_product_id := product_id;
    movement_batch_id := batch_id; user_id := user_id |} in
  (movement, add_movement movement db).

(** [get_batch_by_id] *)
Definition get_batch_by_id (batch_id : Z) (db : Session) : option InventoryBatch :=
  batches db !! batch_id.

(** The ORDER BY clause of [reserve_stock]. *)
Definition expiry_order (prefer_fifo : bool) (x y : Z * InventoryBatch) : bool :=
  if prefer_fifo then expiry_date x.2 <=? expiry_date y.2
  else expiry_date y.2 <=? expiry_date x.2.

(** The WHERE clause of [reserve_stock]. *)
Definition reservable (pid : Z) (row : Z * InventoryBatch) : Prop :=
  product_id row.2 = pid ∧ is_active row.2 = true ∧
  reserved_quantity row.2 < current_quantity row.2.

#[global] Instance reservable_dec pid row : Decision (reservable pid row).
Proof. unfold reservable. apply _. Defined.

(** The query of [reserve_stock], as the rows it selects ... *)
Definition reservable_rows (pid : Z) (prefer_fifo : bool)
  (bs : gmap Z InventoryBatch) : list (Z * InventoryBatch) :=
  stable_sort (expiry_order prefer_fifo) (filter (reservable pid) (table_rows bs)).

(** ... and as the list of objects [batches] it returns. *)
Definition reservable_batches (pid : Z) (prefer_fifo : bool)
  (bs : gmap Z InventoryBatch) : list Z :=
  (reservable_rows pid prefer_fifo bs).*1.

Definition reservation_line (id : Z) (batch : InventoryBatch) (reserve_qty : Z)
  : Reservation :=
  {| r_batch_id := id; r_batch_number := batch_number batch;
     r_quantity := reserve_qty; r_unit_price := selling_price_per_unit batch;
     r_expiry_date := expiry_date batch |}.

(** The allocation loop of [reserve_stock]; a reference that the query
    returned always resolves, the [None] branch is never taken. *)
Fixpoint reserve_loop (ids : list Z) (remaining_quantity : Z)
  (reservations : list Reservation) (bs : gmap Z InventoryBatch)
  : Z * list Reservation * gmap Z InventoryBatch :=
  match ids with
  | [] => (remaining_quantity, reservations, bs)
  | id :: ids' =>
      if remaining_quantity <=? 0 then (remaining_quantity, reservations, bs)
      else
        match bs !! id with
        | None => reserve_loop ids' remaining_quantity reservations bs
        | Some batch =>
            let available := current_quantity batch - reserved_quantity batch in
            if available <=? 0
            then reserve_loop ids' remaining_quantity reservations bs
            else
              let reserve_qty := Z.min remaining_quantity available in
              reserve_loop ids' (remaining_quantity - reserve_qty)
                (reservations ++ [reservation_line id batch reserve_qty])
                (alter (λ b, set_reserved_quantity
                               (reserved_quantity b + reserve_qty) b) id bs)
        end
  end.

(** The rollback loop of [reserve_stock]; [next(...)] over the batches of
    the query raises when no batch has the line's id. *)
Fixpoint rollback_loop (ids : list Z) (reservations : list Reservation)
  (bs : gmap Z InventoryBatch) : outcome () * gmap Z InventoryBatch :=
  match reservations with
  | [] => (Returned (), bs)
  | reservation :: rest =>
      match List.find (λ id, id =? r_batch_id reservation) ids with
      | None => (Raised StopIteration, bs)
      | Some id =>
          rollback_loop ids rest
            (alter (λ b, set_reserved_quantity
                           (reserved_quantity b - r_quantity reservation) b) id bs)
      end
  end.

Definition reserve_stock (product_id quantity : Z) (prefer_fifo : bool)
  (db : Session) : outcome (list Reservation) * Session :=
  let ids := reservable_batches product_id prefer_fifo (batches db) in
  let '(remaining_quantity, reservations, bs) :=
    reserve_loop ids quantity [] (batches db) in
  if 0 <? remaining_quantity then
    match rollback_loop ids reservations bs with
    | (Raised e, bs') => (Raised e, with_batches bs' db)
    | (Returned _, bs') =>
        (Raised (ValueError quantity (quantity - remaining_quantity)),
         with_batches bs' db)
    end
  else (Returned reservations, with_batches bs db).

Fixpoint release_reservation (reservations : list Reservation) (db : Session)
  : Session :=
  match reservations with
  | [] => db
  | reservation :: rest =>
      release_reservation rest
        match get_batch_by_id (r_batch_id reservation) db with
        | Some batch =>
            with_batches
              (alter (set_reserved_quantity
                        (Z.max 0 (reserved_quantity batch - r_quantity reservation)))
                 (r_batch_id reservation) (batches db)) db
        | None => db
        end
  end.

Fixpoint confirm_sale (reservations : list Reservation) (user_id : Z)
  (sale_reference : string) (db : Session) : outcome () * Session :=
  match reservations with
  | [] => (Returned (), db)
  | reservation :: rest =>
      match get_batch_by_id (r_batch_id reservation) db with
      | None => confirm_sale rest user_id sale_reference db
      | Some batch =>
          let q := r_quantity reservation in
          let db1 :=
            with_batches
              (alter (λ b, set_reserved_quantity (reserved_quantity b - q)
                             (set_current_quantity (current_quantity b - q) b))
                 (r_batch_id reservation) (batches db)) db in
          let '(_, db2) :=
            record_stock_movement (product_id batch) (- q) SALE user_id
              (Some (r_batch_id reservation)) None (Some sale_reference)
              (Some ("Sale from batch " +:+ batch_number batch)) db1 in
          confirm_sale rest user_id sale_reference db2
      end
  end.

Definition adjust_stock (batch_id new_quantity user_id : Z) (reason : string)
  (db : Session) : bool * Session :=
  match get_batch_by_id batch_id db with
  | None => (false, db)
  | Some batch =>
      let old_quantity := current_quantity batch in
      let adjustment := new_quantity - old_quantity in
      let db1 :=
        with_batches
          (alter (set_current_quantity new_quantity) batch_id (batches db)) db in
      let '(_, db2) :=
        record_stock_movement (product_id batch) adjustment ADJUSTMENT user_id
          (Some batch_id) None None
          (Some ("Stock adjustment: " +:+ reason +:+ ". Old: "
                 +:+ pretty old_quantity +:+ ", New: " +:+ pretty new_quantity))
          db1 in
      (true, db2)
  end.

(** [ExpiryService.mark_batch_expired] *)
Definition mark_batch_expired (batch_id user_id : Z) (db : Session)
  : bool * Session :=
  match batches db !! batch_id with
  | None => (false, db)
  | Some batch =>
      if current_quantity batch <=? 0 then (false, db)
      else
        let '(_, db1) :=
          record_stock_movement (product_id batch) (- current_quantity batch)
            EXPIRED user_id (Some batch_id) None None
            (Some ("Batch " +:+ batch_number batch +:+ " marked as expired"))
            db in
        (true,
         with_batches
           (alter (λ b, set_current_quantity 0 (set_is_expired true b))
              batch_id (batches db1)) db1)
  end.

(** ** Expiry alerts ([ExpiryService.get_expiry_alerts]) *)

Record ExpiryAlert := {
  a_batch_id : Z;
  a_product_id : Z;
  product_name : string;
  a_batch_number : string;
  a_current_quantity : Z;
  a_expiry_date : Z;
  days_until_expiry : Z;
  alert_level : ExpiryAlertLevel;
  estimated_value : Q;
  recommended_action : string;
  priority_score : Q
}.

(** [select(InventoryBatch, Product).join(Product)]: each batch with the
    product its foreign key names. *)
Definition joined_rows (db : Session) : list (Z * InventoryBatch * Product) :=
  omap (λ row : Z * InventoryBatch,
          p ← products db !! product_id row.2; Some (row.1, row.2, p))
       (table_rows (batches db)).

Definition alert_condition (today min_quantity : Z) (include_expired : bool)
  (row : Z * InventoryBatch * Product) : Prop :=
  is_active row.1.2 = true ∧ min_quantity ≤ current_quantity row.1.2 ∧
  product_is_active row.2 = true ∧
  (include_expired = true ∨ today ≤ expiry_date row.1.2).

#[global] Instance alert_condition_dec today mq ie row :
  Decision (alert_condition today mq ie row).
Proof. unfold alert_condition. apply _. Defined.

(** [alert_levels and alert_level not in alert_levels] is false for [None]
    and for the empty list. *)
Definition level_selected (alert_levels : option (list ExpiryAlertLevel))
  (level : ExpiryAlertLevel) : bool :=
  match alert_levels with
  | Some (l :: ls) => bool_decide (level ∈ l :: ls)
  | _ => true
  end.

Definition make_alert (settings : Settings) (today : Z)
  (row : Z * InventoryBatch * Product) : ExpiryAlert :=
  let '(id, batch, product) := row in
  let days := expiry_date batch - today in
  let level := _calculate_alert_level settings days in
  {| a_batch_id := id;
     a_product_id := product_id batch;
     product_name := name product;
     a_batch_number := batch_number batch;
     a_current_quantity := current_quantity batch;
     a_expiry_date := expiry_date batch;
     days_until_expiry := days;
     alert_level := level;
     estimated_value :=
       (inject_Z (current_quantity batch) * selling_price_per_unit batch)%Q;
     recommended_action :=
       _get_recommended_action days (current_quantity batch) level;
     priority_score :=
       _calculate_priority_score days (current_quantity batch)
         (selling_price_per_unit batch) (is_controlled_substance product) |}.

(** The alerts in the order the loop appends them. *)
Definition collect_alerts (settings : Settings) (today : Z)
  (alert_levels : option (list ExpiryAlertLevel)) (min_quantity : Z)
  (include_expired : bool) (db : Session) : list ExpiryAlert :=
  List.filter (λ a, level_selected alert_levels (alert_level a))
    (make_alert settings today
       <$> filter (alert_condition today min_quantity include_expired)
             (joined_rows db)).

#[global] Instance Qeq_decision (x y : Q) : Decision (x == y)%Q := Qeq_dec x y.

(** [alerts.sort(key=lambda x: x.priority_score, reverse=True)]: a stable
    sort, alerts of equal score keep their order. *)
Definition score_order (x y : ExpiryAlert) : bool :=
  Qle_bool (priority_score y) (priority_score x).

Definition get_expiry_alerts (settings : Settings) (today : Z)
  (alert_levels : option (list ExpiryAlertLevel)) (min_quantity : Z)
  (include_expired : bool) (db : Session) : list ExpiryAlert :=
  stable_sort score_order
    (collect_alerts settings today alert_levels min_quantity include_expired db).

(** ** Expiry summary ([ExpiryService.get_expiry_summary]) *)

Record Bucket := {
  bucket_batches : Z;
  bucket_quantity : Z;
  bucket_value : Q
}.

(** [count(id)], [sum(current_quantity)] and
    [sum(current_quantity * selling_price_per_unit)] over the selected rows. *)
Definition aggregate (rows : list (Z * InventoryBatch * Product)) : Bucket :=
  {| bucket_batches := Z.of_nat (length rows);
     bucket_quantity := foldr (λ row acc, current_quantity row.1.2 + acc) 0 rows;
     bucket_value :=
       foldr (λ row acc,
                (inject_Z (current_quantity row.1.2)
                 * selling_price_per_unit row.1.2 + acc)%Q) 0%Q rows |}.

Definition in_stock (row : Z * InventoryBatch * Product) : Prop :=
  is_active row.1.2 = true ∧ 0 < current_quantity row.1.2 ∧
  product_is_active row.2 = true.

Definition in_window (today max_days : Z) (row : Z * InventoryBatch * Product)
  : Prop :=
  in_stock row ∧ expiry_date row.1.2 ≤ today + max_days ∧
  today ≤ expiry_date row.1.2.

Definition already_expired (today : Z) (row : Z * InventoryBatch * Product)
  : Prop :=
  in_stock row ∧ expiry_date row.1.2 < today.

#[global] Instance in_stock_dec row : Decision (in_stock row).
Proof. unfold in_stock. apply _. Defined.
#[global] Instance in_window_dec today d row : Decision (in_window today d row).
Proof. unfold in_window. apply _. Defined.
#[global] Instance already_expired_dec today row :
  Decision (already_expired today row).
Proof. unfold already_expired. apply _. Defined.

(** The [max_days] of a level; [None] is the [continue] of the INFO level. *)
Definition level_max_days (settings : Settings) (level : ExpiryAlertLevel)
  : option Z :=
  match level with
  | CRITICAL => Some (expiry_alert_1_week settings)
  | HIGH => Some (expiry_alert_1_month settings)
  | MEDIUM => Some (expiry_alert_3_months settings)
  | LOW => Some (expiry_alert_6_months settings)
  | INFO => None
  end.

Definition all_levels : list ExpiryAlertLevel := [CRITICAL; HIGH; MEDIUM; LOW; INFO].

Record ExpirySummary := {
  total_batches : Z;
  total_quantity : Z;
  total_value : Q;
  expiry_breakdown : gmap string Bucket;
  expired : Bucket
}.

Definition get_expiry_summary (settings : Settings) (today : Z) (db : Session)
  : ExpirySummary :=
  let rows := joined_rows db in
  let totals := aggregate (filter in_stock rows) in
  let expiry_breakdown :=
    foldl (λ (acc : gmap string Bucket) level,
             match level_max_days settings level with
             | None => acc
             | Some max_days =>
                 <[level_value level :=
                     aggregate (filter (in_window today max_days) rows)]> acc
             end) ∅ all_levels in
  {| total_batches := bucket_batches totals;
     total_quantity := bucket_quantity totals;
     total_value := bucket_value totals;
     expiry_breakdown := expiry_breakdown;
     expired := aggregate (filter (already_expired today) rows) |}.

(** ** Specification-side definitions *)

(** The greedy plan in the words of the specification: for each batch in
    order, take [min(remaining_needed, current - reserved)] until the request
    is met. *)
Fixpoint greedy_plan (remaining_needed : Z) (rows : list (Z * InventoryBatch))
  : list Reservation :=
  match rows with
  | [] => []
  | (id, batch) :: rows' =>
      if remaining_needed <=? 0 then []
      else
        let take := Z.min remaining_needed (available_quantity batch) in
        reservation_line id batch take :: greedy_plan (remaining_needed - take) rows'
  end.

(** The state after the reserved quantities of a plan have been applied. *)
Definition apply_plan (plan : list Reservation) (bs : gmap Z InventoryBatch)
  : gmap Z InventoryBatch :=
  foldl (λ m r, alter (λ b, set_reserved_quantity
                              (reserved_quantity b + r_quantity r) b)
                  (r_batch_id r) m) bs plan.

(** Every line finds, when its turn comes, a reserved quantity that covers
    it; lines on batches that do not exist are not constrained. *)
Fixpoint lines_backed (lines : list Reservation) (bs : gmap Z InventoryBatch)
  : Prop :=
  match lines with
  | [] => True
  | line :: rest =>
      match bs !! r_batch_id line with
      | None => lines_backed rest bs
      | Some batch =>
          0 ≤ r_quantity line ≤ reserved_quantity batch ∧
          lines_backed rest
            (alter (λ b, set_reserved_quantity
                           (reserved_quantity b - r_quantity line)
                           (set_current_quantity
                              (current_quantity b - r_quantity line) b))
               (r_batch_id line) bs)
      end
  end.

Definition total_quantity_of (reservations : list Reservation) : Z :=
  foldr (λ r acc, r_quantity r + acc) 0 reservations.

Definition total_available (rows : list (Z * InventoryBatch)) : Z :=
  foldr (λ row acc, available_quantity row.2 + acc) 0 rows.

(** The batch invariant of the data model. *)
Definition batch_ok (b : InventoryBatch) : Prop :=
  0 ≤ reserved_quantity b ≤ current_quantity b.

(** Every batch of the session satisfies it:
    [∀ id b, batches db !! id = Some b → batch_ok b]. *)
Definition store_ok (db : Session) : Prop :=
  map_Forall (λ _ b, batch_ok b) (batches db).

Definition reserved_nonneg (db : Session) : Prop :=
  ∀ id b, batches db !! id = Some b → 0 ≤ reserved_quantity b.

(** All-or-nothing reservation: with enough stock among the batches of the
    query the call returns lines that add up to the request, and every batch
    it wrote to stays within its current quantity; otherwise it raises and the
    session is the one before the call. *)
Definition all_or_nothing (pid quantity : Z) (prefer_fifo : bool) (db : Session)
  : Prop :=
  let available :=
    total_available (reservable_rows pid prefer_fifo (batches db)) in
  (quantity ≤ available →
   ∃ reservations db',
     reserve_stock pid quantity prefer_fifo db = (Returned reservations, db') ∧
     total_quantity_of reservations = quantity ∧
     ∀ id b', batches db' !! id = Some b' →
       reserved_quantity b' ≤ current_quantity b' ∨ batches db !! id = Some b') ∧
  (available < quantity →
   reserve_stock pid quantity prefer_fifo db
   = (Raised (ValueError quantity available), db)).

(** ** Sample data *)

(** The fixture of [tests/test_expiry_service.py]: one product at 15 a unit
    and five batches expiring 3, 20, 60, 120 and 300 days after [today]. *)
Definition sample_today : Z := 739000.

Definition sample_batch (number : string) (initial current reserved : Z)
  (expiry : Z) : InventoryBatch :=
  {| batch_number := number; initial_quantity := initial;
     current_quantity := current; reserved_quantity := reserved;
     cost_per_unit := 10; selling_price_per_unit := 15;
     expiry_date := expiry; is_active := true; is_expired := false;
     product_id := 1 |}.

Definition sample_product : Product :=
  {| name := "Test Medicine"; product_is_active := true;
     is_controlled_substance := false |}.

Definition sample_session (bs : list (Z * InventoryBatch)) : Session :=
  {| batches := list_to_map bs; products := {[ 1 := sample_product ]};
     movements := [] |}.

Definition fixture_session : Session :=
  sample_session
    [(1, sample_batch "CRITICAL001" 50 30 0 (sample_today + 3));
     (2, sample_batch "HIGH001" 100 75 0 (sample_today + 20));
     (3, sample_batch "MEDIUM001" 200 150 0 (sample_today + 60));
     (4, sample_batch "LOW001" 300 250 0 (sample_today + 120));
     (5, sample_batch "INFO001" 400 350 0 (sample_today + 300))].

(** The three batches of the FIFO scenario, stored latest expiry first. *)
Definition fifo_session : Session :=
  sample_session
    [(1, sample_batch "MEDIUM001" 200 150 0 (sample_today + 60));
     (2, sample_batch "HIGH001" 100 75 0 (sample_today + 20));
     (3, sample_batch "CRITICAL001" 50 30 0 (sample_today + 3))].

(** A batch five days past its expiry date that nobody marked, next to a
    batch that expires in ten days ... *)
Definition aged_session : Session :=
  sample_session
    [(1, sample_batch "OLD001" 10 10 0 (sample_today - 5));
     (2, sample_batch "NEW001" 10 10 0 (sample_today + 10))].

(** ... and the same after [mark_batch_expired] and a stock adjustment that
    puts the ten units back: the batch is flagged expired and in stock. *)
Definition stale_session : Session :=
  (adjust_stock 1 10 1 "recount" (mark_batch_expired 1 1 aged_session).2).2.

(** Two batches beyond one year, alike but for the expiry date; the later
    one has the smaller primary key. *)
Definition tie_session : Session :=
  sample_session
    [(1, sample_batch "FAR001" 10 10 0 (sample_today + 500));
     (2, sample_batch "FAR002" 10 10 0 (sample_today + 400))].

(** A batch with ten of its thirty units reserved. *)
Definition reserved_session : Session :=
  sample_session [(1, sample_batch "HELD001" 50 30 10 (sample_today + 3))].

Definition sample_line (id quantity : Z) : Reservation :=
  {| r_batch_id := id; r_batch_number := "CRITICAL001"; r_quantity := quantity;
     r_unit_price := 15; r_expiry_date := sample_today + 3 |}.

(** What it takes for [confirm_sale] to apply a line, in the words of the
    specification: the batch exists and neither of its quantities is smaller
    than the line's. *)
Definition line_applicable (db : Session) (line : Reservation) : Prop :=
  ∃ batch, batches db !! r_batch_id line = Some batch ∧
           r_quantity line ≤ current_quantity batch ∧
           r_quantity line ≤ reserved_quantity batch.

(** ** Further queries of the inventory service *)

(** The WHERE clause of [get_available_stock]. *)
Definition stock_condition (pid : Z) (row : Z * InventoryBatch) : Prop :=
  product_id row.2 = pid ∧ is_active row.2 = true ∧ 0 < current_quantity row.2.

#[global] Instance stock_condition_dec pid row : Decision (stock_condition pid row).
Proof. unfold stock_condition. apply _. Defined.

Definition sum_current_quantity (rows : list (Z * InventoryBatch)) : Z :=
  foldr (λ row acc, current_quantity row.2 + acc) 0 rows.

(** [sum(current_quantity)] over the selected rows; [total or 0] is 0 when
    no row is selected. *)
Definition get_available_stock (product_id : Z) (db : Session) : Z :=
  sum_current_quantity
    (filter (stock_condition product_id) (table_rows (batches db))).

(** What a batch adds to the available stock of product [pid]. *)
Definition counted_stock (pid : Z) (b : InventoryBatch) : Z :=
  if decide (product_id b = pid ∧ is_active b = true)
  then Z.max 0 (current_quantity b) else 0.

(** The conditions that [get_product_batches] collects. *)
Definition product_batch_condition (pid : Z) (active_only available_only : bool)
  (row : Z * InventoryBatch) : Prop :=
  product_id row.2 = pid ∧
  (active_only = false ∨ is_active row.2 = true) ∧
  (available_only = false ∨ 0 < current_quantity row.2).

#[global] Instance product_batch_condition_dec pid ao av row :
  Decision (product_batch_condition pid ao av row).
Proof. unfold product_batch_condition. apply _. Defined.

Definition get_product_batches (product_id : Z) (active_only available_only : bool)
  (db : Session) : list (Z * InventoryBatch) :=
  stable_sort (expiry_order true)
    (filter (product_batch_condition product_id active_only available_only)
       (table_rows (batches db))).

(** The keyword arguments of [create_inventory_batch]; a column with a
    default may be left out. *)
Record BatchData := {
  bd_batch_number : string;
  bd_initial_quantity : Z;
  bd_current_quantity : option Z;
  bd_reserved_quantity : option Z;
  bd_cost_per_unit : Q;
  bd_selling_price_per_unit : Q;
  bd_expiry_date : Z;
  bd_is_active : option bool;
  bd_is_expired : option bool
}.

(** The primary key the database gives a new row: one past the largest in
    use, 1 in an empty table. *)
Definition next_id {A : Type} (t : gmap Z A) : Z :=
  match (table_rows t).*1 with
  | [] => 1
  | k :: ks => 1 + foldr Z.max k ks
  end.

Definition create_inventory_batch (product_id : Z) (batch_data : BatchData)
  (db : Session) : (Z * InventoryBatch) * Session :=
  let batch :=
    {| batch_number := bd_batch_number batch_data;
       initial_quantity := bd_initial_quantity batch_data;
       current_quantity := bd_initial_quantity batch_data;
       reserved_quantity := default 0 (bd_reserved_quantity batch_data);
       cost_per_unit := bd_cost_per_unit batch_data;
       selling_price_per_unit := bd_selling_price_per_unit batch_data;
       expiry_date := bd_expiry_date batch_data;
       is_active := default true (bd_is_active batch_data);
       is_expired := default false (bd_is_expired batch_data);
       product_id := product_id |} in
  let id := next_id (batches db) in
  let db1 := with_batches (<[id := batch]> (batches db)) db in
  let '(_, db2) :=
    record_stock_movement product_id (initial_quantity batch) PURCHASE 1
      (Some id) (Some (cost_per_unit batch)) None
      (Some ("Initial stock for batch " +:+ batch_number batch)) db1 in
  ((id, batch), db2).

(** ** Audit trail *)

(** The signed quantity that a list of movements books on a batch. *)
Definition movement_total (id : Z) (ms : list StockMovement) : Z :=
  foldr (λ m acc,
           if bool_decide (movement_batch_id m = Some id)
           then movement_quantity m + acc else acc) 0 ms.

(** ** Severity *)

Definition level_rank (level : ExpiryAlertLevel) : Z :=
  match level with
  | CRITICAL => 0 | HIGH => 1 | MEDIUM => 2 | LOW => 3 | INFO => 4
  end.

(** The movements added between two states account for every change of a
    current quantity: each batch of [db] is still there in [db'], and its
    current quantity has moved by what the new movements book on it. *)
Definition stock_accounted (db db' : Session) : Prop :=
  ∃ new,
    movements db' = (movements db ++ new)%list ∧
    ∀ id b, batches db !! id = Some b →
      ∃ b', batches db' !! id = Some b' ∧
            current_quantity b' = current_quantity b + movement_total id new.

(** ** The cart ([app/services/pos_service.py]) *)

(** [Decimal] amounts are exact rationals. *)
Record CartItem := {
  ci_product_id : Z;
  ci_product_name : string;
  ci_sku : string;
  ci_quantity : Z;
  ci_unit_price : Q;
  ci_discount_amount : Q;
  ci_prescription_number : option string;
  ci_prescriber_name : option string;
  ci_days_supply : option Z
}.

Record Cart := {
  items : list CartItem;
  customer_id : option Z;
  discount_amount : Q;
  tax_rate : Q
}.

Definition set_ci_quantity (q : Z) (item : CartItem) : CartItem :=
  {| ci_product_id := ci_product_id item;
     ci_product_name := ci_product_name item; ci_sku := ci_sku item;
     ci_quantity := q; ci_unit_price := ci_unit_price item;
     ci_discount_amount := ci_discount_amount item;
     ci_prescription_number := ci_prescription_number item;
     ci_prescriber_name := ci_prescriber_name item;
     ci_days_supply := ci_days_supply item |}.

Definition with_items (l : list CartItem) (cart : Cart) : Cart :=
  {| items := l; customer_id := customer_id cart;
     discount_amount := discount_amount cart; tax_rate := tax_rate cart |}.

(** [CartItem.line_total] *)
Definition line_total (item : CartItem) : Q :=
  (inject_Z (ci_quantity item) * ci_unit_price item - ci_discount_amount item)%Q.

(** [Cart.subtotal]: [sum] adds from the left, starting at 0. *)
Definition subtotal (cart : Cart) : Q :=
  foldl (λ acc item, (acc + line_total item)%Q) 0%Q (items cart).

(** [Cart.total_discount] *)
Definition total_discount (cart : Cart) : Q :=
  (foldl (λ acc item, (acc + ci_discount_amount item)%Q) 0%Q (items cart)
   + discount_amount cart)%Q.

(** [quantize(Decimal('0.01'), ROUND_HALF_UP)]: to the nearest cent, a half
    away from zero. *)
Definition quantize_half_up (x : Q) : Q :=
  let n := (x * 100)%Q in
  let cents :=
    if Qle_bool 0 n then Qfloor (n + (1 # 2)) else - Qfloor (- n + (1 # 2)) in
  (inject_Z cents / 100)%Q.

(** [Cart.tax_amount] *)
Definition tax_amount (cart : Cart) : Q :=
  let taxable_amount := (subtotal cart - discount_amount cart)%Q in
  quantize_half_up (taxable_amount * tax_rate cart / 100).

(** [Cart.total] *)
Definition total (cart : Cart) : Q :=
  (subtotal cart - discount_amount cart + tax_amount cart)%Q.

(** [Cart.item_count] *)
Definition item_count (cart : Cart) : Z :=
  foldl (λ acc item, acc + ci_quantity item) 0 (items cart).

(** [Cart.find_item] *)
Definition find_item (product_id : Z) (cart : Cart) : option CartItem :=
  List.find (λ item, ci_product_id item =? product_id) (items cart).

(** [existing_item.quantity += quantity] on the item that [find_item]
    returned, the first one of the product. *)
Fixpoint add_to_first (product_id quantity : Z) (l : list CartItem)
  : list CartItem :=
  match l with
  | [] => []
  | item :: rest =>
      if ci_product_id item =? product_id
      then set_ci_quantity (ci_quantity item + quantity) item :: rest
      else item :: add_to_first product_id quantity rest
  end.

(** [Cart.add_item] *)
Definition add_item (cart_item : CartItem) (cart : Cart) : Cart :=
  match find_item (ci_product_id cart_item) cart with
  | Some _ =>
      with_items (add_to_first (ci_product_id cart_item) (ci_quantity cart_item)
                    (items cart)) cart
  | None => with_items (items cart ++ [cart_item]) cart
  end.

(** The loop of [Cart.remove_item]: [None] when no item has the product. *)
Fixpoint remove_first (product_id : Z) (l : list CartItem)
  : option (list CartItem) :=
  match l with
  | [] => None
  | item :: rest =>
      if ci_product_id item =? product_id then Some rest
      else (item ::.) <$> remove_first product_id rest
  end.

(** [Cart.remove_item] *)
Definition remove_item (product_id : Z) (cart : Cart) : bool * Cart :=
  match remove_first product_id (items cart) with
  | Some l => (true, with_items l cart)
  | None => (false, cart)
  end.

(** [item.quantity = quantity] on the first item of the product. *)
Fixpoint set_first (product_id quantity : Z) (l : list CartItem)
  : list CartItem :=
  match l with
  | [] => []
  | item :: rest =>
      if ci_product_id item =? product_id
      then set_ci_quantity quantity item :: rest
      else item :: set_first product_id quantity rest
  end.

(** [Cart.update_item_quantity] *)
Definition update_item_quantity (product_id quantity : Z) (cart : Cart)
  : bool * Cart :=
  match find_item product_id cart with
  | Some _ =>
      if quantity <=? 0 then remove_item product_id cart
      else (true, with_items (set_first product_id quantity (items cart)) cart)
  | None => (false, cart)
  end.

(** [Cart.clear]; the tax rate stays. *)
Definition clear (cart : Cart) : Cart :=
  {| items := []; customer_id := None; discount_amount := 0;
     tax_rate := tax_rate cart |}.

(** [Cart()] *)
Definition empty_cart : Cart :=
  {| items := []; customer_id := None; discount_amount := 0; tax_rate := 0 |}.

(** The price of the items before any discount. *)
Definition gross_amount (cart : Cart) : Q :=
  foldr (λ item acc, (inject_Z (ci_quantity item) * ci_unit_price item + acc)%Q)
    0%Q (items cart).

(** ** Carts per session ([POSService]) *)

Inductive pos_outcome (A : Type) :=
  | PosReturned (a : A)
  | PosValueError (message : string).
Arguments PosReturned {A} a.
Arguments PosValueError {A} message.

(** [POSService.get_cart] on the [_carts] dictionary. *)
Definition get_cart (session_id : string) (carts : gmap string Cart)
  : Cart * gmap string Cart :=
  match carts !! session_id with
  | Some cart => (cart, carts)
  | None => (empty_cart, <[session_id := empty_cart]> carts)
  end.

(** [POSService.remove_from_cart] *)
Definition remove_from_cart (session_id : string) (product_id : Z)
  (carts : gmap string Cart) : Cart * gmap string Cart :=
  let '(cart, carts1) := get_cart session_id carts in
  let cart' := (remove_item product_id cart).2 in
  (cart', <[session_id := cart']> carts1).

(** [POSService.update_cart_item]; the session is only read. *)
Definition update_cart_item (session_id : string) (product_id quantity : Z)
  (db : Session) (carts : gmap string Cart)
  : pos_outcome Cart * gmap string Cart :=
  let available_stock := get_available_stock product_id db in
  if (0 <? quantity) && (available_stock <? quantity) then
    (PosValueError ("Insufficient stock. Available: " +:+ pretty available_stock
                    +:+ ", Requested: " +:+ pretty quantity), carts)
  else
    let '(cart, carts1) := get_cart session_id carts in
    let cart' := (update_item_quantity product_id quantity cart).2 in
    (PosReturned cart', <[session_id := cart']> carts1).

(** [POSService.clear_cart] *)
Definition clear_cart (session_id : string) (carts : gmap string Cart)
  : gmap string Cart :=
  match carts !! session_id with
  | Some cart => <[session_id := clear cart]> carts
  | None => carts
  end.

Definition sample_item (product_id quantity : Z) : CartItem :=
  {| ci_product_id := product_id; ci_product_name := "Test Medicine";
     ci_sku := "TEST001"; ci_quantity := quantity; ci_unit_price := 15;
     ci_discount_amount := 0; ci_prescription_number := None;
     ci_prescriber_name := None; ci_days_supply := None |}.

Definition sample_cart : Cart :=
  with_items [sample_item 1 2; sample_item 2 5] empty_cart.

(** ** The expiry endpoints ([app/api/expiry.py]) *)

(** What an endpoint's [try] block can raise. *)
Inductive api_exception :=
  | ApiValueError (message : string)
  | ApiHTTPException (status_code : Z) (detail : string).

Section api.

(** [str(e)] of an [HTTPException], which the web framework defines. *)
Variable http_exception_str : Z → string → string.

Definition exception_str (e : api_exception) : string :=
  match e with
  | ApiValueError message => message
  | ApiHTTPException status_code detail => http_exception_str status_code detail
  end.

(** The [try] block of the [mark_batch_expired] endpoint: the message and
    the batch id, or what it raises. *)
Definition mark_batch_expired_try (batch_id user_id : Z) (db : Session)
  : (api_exception + string * Z) * Session :=
  let '(success, db') := mark_batch_expired batch_id user_id db in
  if negb success
  then (inl (ApiHTTPException 404 "Batch not found or already processed"), db')
  else (inr ("Batch marked as expired successfully", batch_id), db').

(** The endpoint with its handlers: [except ValueError] answers 400, and
    [except Exception], which also catches an [HTTPException], answers 500. *)
Definition mark_batch_expired_endpoint (batch_id user_id : Z) (db : Session)
  : (api_exception + string * Z) * Session :=
  match mark_batch_expired_try batch_id user_id db with
  | (inl (ApiValueError message), db') =>
      (inl (ApiHTTPException 400 (exception_str (ApiValueError message))), db')
  | (inl e, db') => (inl (ApiHTTPException 500 (exception_str e)), db')
  | (inr response, db') => (inr response, db')
  end.

End api.

(** ** The reservation phase of a sale ([POSService.process_sale]) *)

(** The reservation loop of [process_sale] over [cart.items], with the
    handler that releases the reservations made so far when a call of
    [reserve_stock] raises; releasing an empty list does nothing, as the guard
    of the handler has it. *)
Fixpoint reserve_cart_items (cart_items : list CartItem)
  (reservations : list Reservation) (db : Session)
  : outcome (list Reservation) * Session :=
  match cart_items with
  | [] => (Returned reservations, db)
  | item :: rest =>
      match reserve_stock (ci_product_id item) (ci_quantity item) true db with
      | (Returned item_reservations, db') =>
          reserve_cart_items rest (reservations ++ item_reservations) db'
      | (Raised e, db') => (Raised e, release_reservation reservations db')
      end
  end.

(** The quantity that a list of lines holds on a batch. *)
Definition reserved_delta (id : Z) (lines : list Reservation) : Z :=
  foldr (λ r acc,
           if bool_decide (r_batch_id r = id) then r_quantity r + acc else acc)
    0 lines.

(** ** The sale items of a sale ([POSService.process_sale]) *)

(** The columns that [process_sale] sets on a [SaleItem]. *)
Record SaleItem := {
  si_sale_id : Z;
  si_product_id : Z;
  si_quantity : Z;
  si_unit_price : Q;
  si_discount_amount : Q;
  si_line_total : Q;
  si_prescription_number : option string;
  si_prescriber_name : option string;
  si_days_supply : option Z;
  si_batch_number : option string;
  si_inventory_batch_id : option Z
}.

(** [for _ in range(item.quantity)]: each round takes the reservation at
    [reservation_index], if there is one left, and moves the index on. *)
Fixpoint take_item_reservations (rounds : nat)
  (reservations item_reservations : list Reservation) (reservation_index : nat)
  : list Reservation * nat :=
  match rounds with
  | O => (item_reservations, reservation_index)
  | S rounds' =>
      match reservations !! reservation_index with
      | Some reservation =>
          take_item_reservations rounds' reservations
            (item_reservations ++ [reservation]) (S reservation_index)
      | None =>
          take_item_reservations rounds' reservations item_reservations
            reservation_index
      end
  end.

(** [SaleItem(...)] with the batch of [first_reservation], if any. *)
Definition make_sale_item (sale_id : Z) (item : CartItem)
  (first_reservation : option Reservation) : SaleItem :=
  {| si_sale_id := sale_id;
     si_product_id := ci_product_id item;
     si_quantity := ci_quantity item;
     si_unit_price := ci_unit_price item;
     si_discount_amount := ci_discount_amount item;
     si_line_total := line_total item;
     si_prescription_number := ci_prescription_number item;
     si_prescriber_name := ci_prescriber_name item;
     si_days_supply := ci_days_supply item;
     si_batch_number := r_batch_number <$> first_reservation;
     si_inventory_batch_id := r_batch_id <$> first_reservation |}.

(** The loop that creates the sale items, in the order in which they are
    added to the session; [range] of a negative quantity is empty. *)
Fixpoint create_sale_items (sale_id : Z) (cart_items : list CartItem)
  (reservations : list Reservation) (reservation_index : nat)
  : list SaleItem :=
  match cart_items with
  | [] => []
  | item :: rest =>
      let '(item_reservations, reservation_index') :=
        take_item_reservations (Z.to_nat (ci_quantity item)) reservations []
          reservation_index in
      let first_reservation := head item_reservations in
      make_sale_item sale_id item first_reservation
      :: create_sale_items sale_id rest reservations reservation_index'
  end.

(** The units of a list of cart items, an item of a negative quantity
    counting for none. *)
Definition units_of (cart_items : list CartItem) : nat :=
  sum_list ((λ item, Z.to_nat (ci_quantity item)) <$> cart_items).

(** * Proofs *)

(** ** Stable insertion sort *)

Section stable_sort_facts.
Context {A : Type} (before : A → A → bool).

Lemma insert_sorted_Permutation (x : A) (l : list A) :
  insert_sorted before x l ≡ₚ x :: l.
Proof.
  induction l as [|y l IH]; simpl; [done|].
  destruct (before x y); [done|].
  rewrite IH. apply Permutation_swap.
Qed.

Lemma stable_sort_Permutation (l : list A) : stable_sort before l ≡ₚ l.
Proof.
  induction l as [|x l IH]; simpl; [done|].
  by rewrite insert_sorted_Permutation, IH.
Qed.

Lemma elem_of_stable_sort (x : A) (l : list A) :
  x ∈ stable_sort before l ↔ x ∈ l.
Proof. by rewrite stable_sort_Permutation. Qed.

Hypothesis before_total : ∀ x y, before x y = false → before y x = true.

Lemma insert_sorted_Sorted (x : A) (l : list A) :
  Sorted (λ a b, before a b = true) l →
  Sorted (λ a b, before a b = true) (insert_sorted before x l).
Proof.
  induction 1 as [|y l Hl IH Hy]; simpl.
  - repeat constructor.
  - destruct (before x y) eqn:Hxy.
    + constructor; [by constructor|by constructor].
    + constructor; [done|].
      destruct Hy as [|z l Hyz]; simpl.
      * constructor. auto.
      * destruct (before x z); constructor; auto.
Qed.

Lemma stable_sort_Sorted (l : list A) :
  Sorted (λ a b, before a b = true) (stable_sort before l).
Proof.
  induction l as [|x l IH]; simpl; [constructor|].
  by apply insert_sorted_Sorted.
Qed.

Lemma Sorted_adjacent (R : A → A → Prop) (l : list A) (i : nat) (a b : A) :
  Sorted R l → l !! i = Some a → l !! S i = Some b → R a b.
Proof.
  intros Hs. revert i. induction Hs as [|y l Hl IH Hy]; intros i Ha Hb; [done|].
  destruct i as [|i]; simpl in *.
  - injection Ha as ->. destruct Hy as [|z l Hyz]; [done|].
    simpl in Hb. by injection Hb as ->.
  - eauto.
Qed.
End stable_sort_facts.

Section stability.
Context {A : Type} (before : A → A → bool).
Context (P : A → Prop) `{!∀ a, Decision (P a)}.
Hypothesis ties : ∀ x y, P x → P y → before x y = true.

(** Elements that [before] does not separate keep their relative order. *)
Lemma filter_insert_sorted (x : A) (l : list A) :
  filter P (insert_sorted before x l) = filter P (x :: l).
Proof.
  induction l as [|y l IH]; simpl; [done|].
  destruct (before x y) eqn:Hxy; [done|].
  rewrite !filter_cons in *.
  destruct (decide (P y)) as [Hy|Hy], (decide (P x)) as [Hx|Hx];
    rewrite IH; try done.
  rewrite ties in Hxy by done. done.
Qed.

Lemma filter_stable_sort (l : list A) :
  filter P (stable_sort before l) = filter P l.
Proof.
  induction l as [|x l IH]; simpl; [done|].
  rewrite filter_insert_sorted, !filter_cons. by rewrite IH.
Qed.
End stability.

(** ** Classification *)

(** C4: with the default thresholds the level of [days_until_expiry] is
    CRITICAL up to 7 days (every negative value included), HIGH up to 30,
    MEDIUM up to 90, LOW up to 180 and INFO beyond, with the eight boundary
    values of the specification as instances. *)
Theorem alert_level_default_thresholds :
  (∀ days : Z,
     let level := _calculate_alert_level default_settings days in
     (level = CRITICAL ↔ days ≤ 7) ∧
     (level = HIGH ↔ 7 < days ≤ 30) ∧
     (level = MEDIUM ↔ 30 < days ≤ 90) ∧
     (level = LOW ↔ 90 < days ≤ 180) ∧
     (level = INFO ↔ 180 < days) ∧
     (days < 0 → level = CRITICAL)) ∧
  _calculate_alert_level default_settings <$> [7; 8; 30; 31; 90; 91; 180; 181]
  = [CRITICAL; HIGH; HIGH; MEDIUM; MEDIUM; LOW; LOW; INFO].
Proof.
  split; [|reflexivity].
  intros days; unfold _calculate_alert_level; simpl.
  repeat match goal with |- context [?a <=? ?b] => destruct (Z.leb_spec a b) end;
    repeat split; intros; try done; try lia.
Qed.

(** ** Recommended action *)

(** C9, as the specification words it, fails: the strings of the code carry
    a prefix and a capital that the table of the specification lacks. *)
Lemma recommended_action_differs_from_spec :
  ∃ days quantity level,
    _get_recommended_action days quantity level
    ≠ spec_recommended_action quantity level.
Proof. by exists 3, 60, CRITICAL. Qed.

(** C9, amended: the recommended action depends on the alert level and the
    quantity only, through the table of the specification with the strings of
    the code. *)
Theorem recommended_action_table (days quantity : Z) :
  (50 < quantity → _get_recommended_action days quantity CRITICAL
     = "URGENT: Consider bulk discount sale or return to supplier") ∧
  (quantity ≤ 50 → _get_recommended_action days quantity CRITICAL
     = "URGENT: Prioritize sale or mark for disposal") ∧
  (100 < quantity → _get_recommended_action days quantity HIGH
     = "Implement promotional pricing or contact supplier for return") ∧
  (quantity ≤ 100 → _get_recommended_action days quantity HIGH
     = "Prioritize in sales recommendations") ∧
  _get_recommended_action days quantity MEDIUM
    = "Monitor closely and consider promotional strategies" ∧
  _get_recommended_action days quantity LOW
    = "Plan inventory rotation and adjust reorder quantities" ∧
  _get_recommended_action days quantity INFO = "Monitor for future planning".
Proof.
  unfold _get_recommended_action.
  repeat split; try done; intros Hq.
  - by rewrite (proj2 (Z.ltb_lt _ _) Hq).
  - by rewrite (proj2 (Z.ltb_ge _ _) Hq).
  - by rewrite (proj2 (Z.ltb_lt _ _) Hq).
  - by rewrite (proj2 (Z.ltb_ge _ _) Hq).
Qed.

(** ** Priority score *)

Lemma round_half_even_le (x : Q) (k : Z) :
  (x <= inject_Z k)%Q → round_half_even x ≤ k.
Proof.
  intros Hx. unfold round_half_even.
  pose proof (Qfloor_le x) as Hf.
  assert (Qfloor x < k ∨ (Qfloor x = k ∧ x - inject_Z (Qfloor x) == 0)%Q)
    as [Hlt|[Heq H0]].
  { destruct (Z.lt_ge_cases (Qfloor x) k) as [?|Hge]; [by left|right].
    assert (Qfloor x ≤ k) by (rewrite <-(Qfloor_Z k); by apply Qfloor_resp_le).
    assert (Qfloor x = k) as Hfk by lia.
    split; [done|]. rewrite Hfk in Hf |- *. lra. }
  - destruct (_ ?= _)%Q; [destruct (Z.even _)|..]; lia.
  - destruct (x - inject_Z (Qfloor x) ?= 1 # 2)%Q eqn:Hc.
    + apply Qeq_alt in Hc. lra.
    + lia.
    + apply Qgt_alt in Hc. lra.
Qed.

Lemma round_half_even_ge (x : Q) (k : Z) :
  (inject_Z k <= x)%Q → k ≤ round_half_even x.
Proof.
  intros Hx. unfold round_half_even.
  assert (k ≤ Qfloor x).
  { rewrite <-(Qfloor_Z k). by apply Qfloor_resp_le. }
  destruct (_ ?= _)%Q; [destruct (Z.even _)|..]; lia.
Qed.

Lemma round_3_bounds (x : Q) (lo hi : Z) :
  (inject_Z lo <= x * 1000)%Q → (x * 1000 <= inject_Z hi)%Q →
  (inject_Z lo <= round x 3 * 1000 ∧ round x 3 * 1000 <= inject_Z hi)%Q.
Proof.
  intros Hlo Hhi. unfold round.
  change (inject_Z (10 ^ Z.of_nat 3)) with 1000%Q.
  apply round_half_even_ge in Hlo. apply round_half_even_le in Hhi.
  rewrite Zle_Qle in Hlo, Hhi.
  unfold Qdiv. change (/ 1000)%Q with (1 # 1000)%Q.
  set (r := inject_Z (round_half_even _)) in *. lra.
Qed.

Lemma weighted_score_bounds (days quantity : Z) (unit_value : Q) :
  0 ≤ days → 0 ≤ quantity → (0 <= unit_value)%Q →
  let urgency_score := (inject_Z (Z.max 0 (365 - days)) / 365)%Q in
  let value_score := Qmin (inject_Z quantity * unit_value / 1000) 1 in
  let quantity_score := Qmin (inject_Z quantity / 100) 1 in
  (0 <= urgency_score * 0.5 + value_score * 0.3 + quantity_score * 0.2 <= 1)%Q.
Proof.
  intros Hd Hq Hu urgency_score value_score quantity_score.
  assert (0 <= inject_Z quantity)%Q as Hq' by (by rewrite Zle_Qle in Hq).
  assert (0 <= urgency_score <= 1)%Q as [].
  { unfold urgency_score, Qdiv. change (/ 365)%Q with (1 # 365)%Q.
    assert (0 ≤ Z.max 0 (365 - days) ≤ 365) as [H1 H2] by lia.
    rewrite Zle_Qle in H1, H2.
    change (inject_Z 0) with 0%Q in H1. change (inject_Z 365) with 365%Q in H2.
    set (u := inject_Z _) in *. lra. }
  assert (0 <= value_score <= 1)%Q as [].
  { unfold value_score. split; [|apply Q.le_min_r].
    apply Q.min_glb; [|done].
    pose proof (Qmult_le_0_compat _ _ Hq' Hu).
    unfold Qdiv. change (/ 1000)%Q with (1 # 1000)%Q. lra. }
  assert (0 <= quantity_score <= 1)%Q as [].
  { unfold quantity_score. split; [|apply Q.le_min_r].
    apply Q.min_glb; [|done].
    unfold Qdiv. change (/ 100)%Q with (1 # 100)%Q. lra. }
  lra.
Qed.

(** C5, as stated, fails: a batch 1000 days past its expiry date, with no
    stock value at all and no controlled substance, scores 1.87. *)
Lemma priority_score_exceeds_bounds_when_expired :
  ∃ days quantity unit_value,
    let score := _calculate_priority_score days quantity unit_value false in
    0 ≤ quantity ∧ (0 <= unit_value)%Q ∧
    (score == 1.87)%Q ∧ (1.5 < score)%Q ∧ (1 < score)%Q.
Proof. exists (-1000), 0, 0%Q. by vm_compute. Qed.

(** C5, amended: for a batch that has not expired ([days_until_expiry ≥ 0]),
    a quantity and a unit price that are not negative, the score lies in
    [[0, 1.5]] and exceeds 1 only for a controlled substance. *)
Theorem priority_score_bounds (days quantity : Z) (unit_value : Q)
  (is_controlled : bool) :
  0 ≤ days → 0 ≤ quantity → (0 <= unit_value)%Q →
  let score := _calculate_priority_score days quantity unit_value is_controlled in
  (0 <= score ∧ score <= 1.5 ∧ (1 < score → is_controlled = true))%Q.
Proof.
  intros Hd Hq Hu. unfold _calculate_priority_score.
  pose proof (weighted_score_bounds days quantity unit_value Hd Hq Hu) as Hw.
  simpl in Hw. set (w := (_ + _ + _)%Q) in *.
  clearbody w. destruct is_controlled.
  - destruct (round_3_bounds (w * 1.5) 0 1500) as [H1 H2].
    { change (inject_Z 0) with 0%Q. lra. }
    { change (inject_Z 1500) with 1500%Q. lra. }
    change (inject_Z 0) with 0%Q in H1. change (inject_Z 1500) with 1500%Q in H2.
    split_and!; [lra|lra|done].
  - destruct (round_3_bounds (w * 1) 0 1000) as [H1 H2].
    { change (inject_Z 0) with 0%Q. lra. }
    { change (inject_Z 1000) with 1000%Q. lra. }
    change (inject_Z 0) with 0%Q in H1. change (inject_Z 1000) with 1000%Q in H2.
    split_and!; [lra|lra|lra].
Qed.

Lemma priority_score_bounds_witness :
  let score := _calculate_priority_score 3 30 15 true in
  (0 <= score ∧ score <= 1.5 ∧ (1 < score → true = true))%Q.
Proof. apply (priority_score_bounds 3 30 15 true); done. Defined.

(** ** Table scans *)

Lemma elem_of_table_rows {A : Type} (t : gmap Z A) (id : Z) (x : A) :
  (id, x) ∈ table_rows t ↔ t !! id = Some x.
Proof.
  unfold table_rows. by rewrite elem_of_stable_sort, elem_of_map_to_list.
Qed.

Lemma NoDup_table_rows {A : Type} (t : gmap Z A) : NoDup (table_rows t).*1.
Proof.
  unfold table_rows. rewrite stable_sort_Permutation.
  apply NoDup_fst_map_to_list.
Qed.

Lemma elem_of_reservable_rows pid fifo (bs : gmap Z InventoryBatch) id b :
  (id, b) ∈ reservable_rows pid fifo bs ↔
  bs !! id = Some b ∧ reservable pid (id, b).
Proof.
  unfold reservable_rows.
  rewrite elem_of_stable_sort, list_elem_of_filter, elem_of_table_rows.
  tauto.
Qed.

Lemma NoDup_reservable_rows pid fifo (bs : gmap Z InventoryBatch) :
  NoDup (reservable_rows pid fifo bs).*1.
Proof.
  unfold reservable_rows. rewrite stable_sort_Permutation.
  eapply sublist_NoDup; [apply (NoDup_table_rows bs)|].
  apply fmap_sublist, sublist_filter.
Qed.

Lemma expiry_order_total fifo x y :
  expiry_order fifo x y = false → expiry_order fifo y x = true.
Proof. unfold expiry_order. destruct fifo; lia. Qed.

Lemma reservable_rows_positive pid fifo (bs : gmap Z InventoryBatch) :
  Forall (λ row, 0 < available_quantity row.2) (reservable_rows pid fifo bs).
Proof.
  apply Forall_forall. intros [id b] [_ (_ & _ & H)]%elem_of_reservable_rows.
  unfold available_quantity. simpl in *. lia.
Qed.

(** ** The greedy plan *)

Lemma total_available_nonneg rows :
  Forall (λ row : Z * InventoryBatch, 0 < available_quantity row.2) rows →
  0 ≤ total_available rows.
Proof. induction 1; simpl; lia. Qed.

Lemma greedy_plan_total rows remaining :
  Forall (λ row : Z * InventoryBatch, 0 < available_quantity row.2) rows →
  0 ≤ remaining →
  total_quantity_of (greedy_plan remaining rows)
  = Z.min remaining (total_available rows).
Proof.
  intros Hrows. revert remaining.
  induction Hrows as [|[id b] rows Hb Hrows IH]; intros remaining Hrem.
  { simpl. lia. }
  pose proof (total_available_nonneg _ Hrows).
  change (total_available ((id, b) :: rows))
    with (available_quantity b + total_available rows).
  cbn [greedy_plan]. simpl in Hb.
  destruct (Z.leb_spec remaining 0).
  { cbn. lia. }
  change (total_quantity_of (?r :: ?l))
    with (r_quantity r + total_quantity_of l).
  rewrite IH by lia. cbn [r_quantity reservation_line]. lia.
Qed.

Lemma greedy_plan_nonpos rows remaining :
  remaining ≤ 0 → greedy_plan remaining rows = [].
Proof.
  intros. destruct rows as [|[id b] rows]; simpl; [done|].
  by rewrite (proj2 (Z.leb_le _ _)).
Qed.

Lemma greedy_plan_ids rows remaining :
  r_batch_id <$> greedy_plan remaining rows `sublist_of` rows.*1.
Proof.
  revert remaining. induction rows as [|[id b] rows IH]; intros rem; simpl.
  { done. }
  destruct (rem <=? 0); simpl.
  - apply sublist_nil_l.
  - by apply sublist_skip.
Qed.

Lemma greedy_plan_lines rows remaining line :
  Forall (λ row : Z * InventoryBatch, 0 < available_quantity row.2) rows →
  line ∈ greedy_plan remaining rows →
  ∃ b, (r_batch_id line, b) ∈ rows ∧ 0 < r_quantity line ≤ available_quantity b.
Proof.
  intros Hrows. revert remaining.
  induction Hrows as [|[id b] rows Hb Hrows IH]; intros rem; simpl.
  { by intros ?%elem_of_nil. }
  destruct (Z.leb_spec rem 0); [by intros ?%elem_of_nil|].
  intros [->|Hin]%elem_of_cons.
  - exists b. simpl in *. split; [left|lia].
  - destruct (IH _ Hin) as (b' & ? & ?). exists b'. split; [by right|done].
Qed.

(** ** The allocation loop against the plan *)

Lemma apply_plan_lookup_ne plan (bs : gmap Z InventoryBatch) id :
  id ∉ r_batch_id <$> plan → apply_plan plan bs !! id = bs !! id.
Proof.
  revert bs. induction plan as [|r plan IH]; intros bs Hid; simpl; [done|].
  rewrite fmap_cons, not_elem_of_cons in Hid. destruct Hid as [Hne Hid].
  unfold apply_plan in *. simpl. rewrite IH by done.
  by rewrite lookup_alter_ne.
Qed.

Lemma apply_plan_lookup plan (bs : gmap Z InventoryBatch) line :
  NoDup (r_batch_id <$> plan) → line ∈ plan →
  apply_plan plan bs !! r_batch_id line
  = (λ b, set_reserved_quantity (reserved_quantity b + r_quantity line) b)
      <$> bs !! r_batch_id line.
Proof.
  revert bs. induction plan as [|r plan IH]; intros bs Hnd Hin.
  { by apply elem_of_nil in Hin. }
  rewrite fmap_cons in Hnd. apply NoDup_cons in Hnd as [Hr Hnd].
  change (apply_plan (r :: plan) bs) with
    (apply_plan plan (alter (λ b, set_reserved_quantity
                       (reserved_quantity b + r_quantity r) b) (r_batch_id r) bs)).
  apply elem_of_cons in Hin as [->|Hin].
  - rewrite apply_plan_lookup_ne by done. by rewrite lookup_alter_eq.
  - rewrite IH by done. rewrite lookup_alter_ne; [done|].
    intros Heq. apply Hr. rewrite Heq. by apply list_elem_of_fmap_2.
Qed.

Lemma reserve_loop_plan rows remaining acc (bs : gmap Z InventoryBatch) :
  NoDup rows.*1 →
  Forall (λ row, bs !! row.1 = Some row.2 ∧ 0 < available_quantity row.2) rows →
  reserve_loop rows.*1 remaining acc bs
  = (remaining - total_quantity_of (greedy_plan remaining rows),
     (acc ++ greedy_plan remaining rows)%list,
     apply_plan (greedy_plan remaining rows) bs).
Proof.
  revert remaining acc bs.
  induction rows as [|[id b] rows IH]; intros rem acc bs Hnd Hrows; simpl.
  { by rewrite Z.sub_0_r, app_nil_r. }
  apply NoDup_cons in Hnd as [Hid Hnd].
  apply Forall_cons in Hrows as [[Hb Hpos] Hrows]. simpl in *.
  destruct (Z.leb_spec rem 0); simpl.
  { by rewrite Z.sub_0_r, app_nil_r. }
  rewrite Hb. unfold available_quantity in *.
  destruct (Z.leb_spec (current_quantity b - reserved_quantity b) 0); [lia|].
  rewrite IH; [|done|].
  - rewrite <-app_assoc. simpl. do 2 f_equal. lia.
  - eapply Forall_impl; [apply Forall_and; split; [exact Hrows|]|].
    + apply Forall_forall. intros row Hrow. exact Hrow.
    + intros row [[Hrow ?] Hin]. split; [|done].
      rewrite lookup_alter_ne; [done|].
      intros ->. apply Hid. by apply list_elem_of_fmap_2.
Qed.

Lemma find_id (ids : list Z) (id : Z) :
  id ∈ ids → List.find (λ x, x =? id) ids = Some id.
Proof.
  induction ids as [|y ids IH]; simpl.
  - by intros ?%elem_of_nil.
  - intros [->|Hin]%elem_of_cons; [by rewrite Z.eqb_refl|].
    destruct (Z.eqb_spec y id); [by subst|auto].
Qed.

Lemma alter_apply_plan_commute (f : InventoryBatch → InventoryBatch) id plan
  (bs : gmap Z InventoryBatch) :
  id ∉ r_batch_id <$> plan →
  alter f id (apply_plan plan bs) = apply_plan plan (alter f id bs).
Proof.
  revert bs. induction plan as [|r plan IH]; intros bs Hid; [done|].
  rewrite fmap_cons, not_elem_of_cons in Hid. destruct Hid as [Hne Hid].
  unfold apply_plan in *. simpl. rewrite IH by done.
  by rewrite alter_alter_ne.
Qed.

Lemma set_reserved_quantity_undo q b :
  set_reserved_quantity
    (reserved_quantity (set_reserved_quantity (reserved_quantity b + q) b) - q)
    (set_reserved_quantity (reserved_quantity b + q) b) = b.
Proof.
  destruct b; unfold set_reserved_quantity; simpl. f_equal. lia.
Qed.

(** The rollback loop restores the state that the plan was applied to. *)
Lemma rollback_loop_apply_plan ids plan (bs : gmap Z InventoryBatch) :
  NoDup (r_batch_id <$> plan) →
  (∀ id, id ∈ r_batch_id <$> plan → id ∈ ids) →
  rollback_loop ids plan (apply_plan plan bs) = (Returned (), bs).
Proof.
  revert bs. induction plan as [|r plan IH]; intros bs Hnd Hids; [done|].
  rewrite fmap_cons in Hnd, Hids. apply NoDup_cons in Hnd as [Hr Hnd].
  simpl. rewrite find_id by (apply Hids; left).
  change (foldl _ _ plan) with
    (apply_plan plan (alter (λ b, set_reserved_quantity
                       (reserved_quantity b + r_quantity r) b) (r_batch_id r) bs)).
  rewrite alter_apply_plan_commute by done.
  rewrite alter_alter_eq, alter_id.
  - apply IH; [done|]. intros id Hid. apply Hids. by right.
  - intros b _. apply set_reserved_quantity_undo.
Qed.

Lemma with_batches_id db : with_batches (batches db) db = db.
Proof. by destruct db. Qed.

(** What [reserve_stock] computes, in terms of the greedy plan. *)
Lemma reserve_stock_plan pid quantity fifo db :
  let rows := reservable_rows pid fifo (batches db) in
  let plan := greedy_plan quantity rows in
  reserve_stock pid quantity fifo db
  = if 0 <? quantity - total_quantity_of plan
    then (Raised (ValueError quantity (total_quantity_of plan)), db)
    else (Returned plan, with_batches (apply_plan plan (batches db)) db).
Proof.
  intros rows plan. unfold reserve_stock, reservable_batches.
  fold rows. rewrite reserve_loop_plan.
  - fold plan. simpl. destruct (0 <? _); [|done].
    rewrite rollback_loop_apply_plan.
    + rewrite with_batches_id. do 3 f_equal. lia.
    + eapply sublist_NoDup; [apply NoDup_reservable_rows|apply greedy_plan_ids].
    + intros id Hid. eapply elem_of_sublist; [done|apply greedy_plan_ids].
  - apply NoDup_reservable_rows.
  - apply Forall_forall. intros [id b] Hrow.
    pose proof Hrow as [? _]%elem_of_reservable_rows.
    pose proof (reservable_rows_positive pid fifo (batches db)) as Hpos.
    rewrite Forall_forall in Hpos. split; [done|by apply Hpos].
Qed.

Lemma Sorted_weaken {A : Type} (R1 R2 : A → A → Prop) (l : list A) :
  (∀ x y, R1 x y → R2 x y) → Sorted R1 l → Sorted R2 l.
Proof.
  intros HR. induction 1 as [|x l _ IH Hx]; constructor; [done|].
  destruct Hx; constructor; auto.
Qed.

(** A batch after a successful reservation is the batch before it, or a
    batch of the query with a positive part of its available quantity
    added to its reserved quantity. *)
Lemma apply_greedy_plan_lookup pid fifo (bs : gmap Z InventoryBatch) quantity id b' :
  apply_plan (greedy_plan quantity (reservable_rows pid fifo bs)) bs !! id
  = Some b' →
  bs !! id = Some b' ∨
  ∃ b take, bs !! id = Some b ∧ 0 < take ≤ available_quantity b ∧
            b' = set_reserved_quantity (reserved_quantity b + take) b.
Proof.
  set (rows := reservable_rows pid fifo bs).
  set (plan := greedy_plan quantity rows). intros Hb'.
  destruct (decide (id ∈ r_batch_id <$> plan)) as [Hin|Hout].
  - right. apply list_elem_of_fmap in Hin as (line & -> & Hline).
    rewrite apply_plan_lookup in Hb'; [|
      eapply sublist_NoDup;
        [apply NoDup_reservable_rows|apply greedy_plan_ids]|done].
    destruct (greedy_plan_lines rows quantity line) as (b & Hrow & Htake);
      [apply reservable_rows_positive|done|].
    apply elem_of_reservable_rows in Hrow as [Hb _].
    rewrite Hb in Hb'. injection Hb' as <-. by exists b, (r_quantity line).
  - left. by rewrite apply_plan_lookup_ne in Hb'.
Qed.

(** ** Reservation: all or nothing *)

Lemma reserve_stock_nonpositive pid quantity prefer_fifo db :
  quantity ≤ 0 →
  reserve_stock pid quantity prefer_fifo db = (Returned [], db).
Proof.
  intros Hq. rewrite reserve_stock_plan, greedy_plan_nonpos by done. simpl.
  rewrite Z.sub_0_r, (proj2 (Z.ltb_ge _ _) Hq).
  by rewrite with_batches_id.
Qed.

(** C10: a request for a quantity that is zero or negative succeeds without
    raising, returns the empty reservation list and leaves the session, and so
    every reserved and current quantity, as it was. *)
Theorem reserve_stock_nonpositive_noop pid quantity prefer_fifo db :
  quantity ≤ 0 →
  (reserve_stock pid quantity prefer_fifo db).1 = Returned [] ∧
  (reserve_stock pid quantity prefer_fifo db).2 = db ∧
  ∀ id,
    batches (reserve_stock pid quantity prefer_fifo db).2 !! id
    = batches db !! id.
Proof. intros Hq. by rewrite reserve_stock_nonpositive. Qed.

Lemma reserve_stock_nonpositive_noop_witness :
  -4 ≤ 0 ∧
  (reserve_stock 1 (-4) true fixture_session).1 = Returned [] ∧
  (reserve_stock 1 (-4) true fixture_session).2 = fixture_session.
Proof.
  split; [lia|].
  destruct (reserve_stock_nonpositive_noop 1 (-4) true fixture_session)
    as (Hret & Hdb & _); [lia|].
  by split.
Defined.

Lemma reserve_stock_returned pid quantity fifo db reservations db' :
  reserve_stock pid quantity fifo db = (Returned reservations, db') →
  let rows := reservable_rows pid fifo (batches db) in
  reservations = greedy_plan quantity rows ∧
  db' = with_batches (apply_plan reservations (batches db)) db ∧
  quantity ≤ total_quantity_of reservations.
Proof.
  rewrite reserve_stock_plan. intros Hrun rows.
  destruct (Z.ltb_spec 0 (quantity - total_quantity_of
              (greedy_plan quantity (reservable_rows pid fifo (batches db)))));
    [done|].
  injection Hrun as <- <-. split_and!; [done..|lia].
Qed.

Lemma greedy_plan_NoDup pid fifo (bs : gmap Z InventoryBatch) quantity :
  NoDup (r_batch_id <$> greedy_plan quantity (reservable_rows pid fifo bs)).
Proof.
  eapply sublist_NoDup; [apply NoDup_reservable_rows|apply greedy_plan_ids].
Qed.

Lemma greedy_plan_batch pid fifo (bs : gmap Z InventoryBatch) quantity line :
  line ∈ greedy_plan quantity (reservable_rows pid fifo bs) →
  ∃ b, bs !! r_batch_id line = Some b ∧
       0 < r_quantity line ≤ available_quantity b.
Proof.
  intros Hline.
  destruct (greedy_plan_lines _ quantity line
              (reservable_rows_positive pid fifo bs) Hline) as (b & Hrow & ?).
  apply elem_of_reservable_rows in Hrow as [Hb _]. by exists b.
Qed.

(** C1, as stated for every requested quantity, fails: a request for -1
    units is within the available stock, and the call returns the empty
    list, whose quantities add up to 0. *)
Lemma reserve_stock_negative_request :
  ∃ quantity, ¬ all_or_nothing 1 quantity true fixture_session.
Proof.
  exists (-1). intros [Hok _].
  destruct Hok as (reservations & db' & Hrun & Hsum & _); [by vm_compute|].
  rewrite reserve_stock_nonpositive in Hrun by lia.
  injection Hrun as <- <-. discriminate Hsum.
Qed.

(** C1, amended: for every product, batch state and requested quantity that
    is not negative, [reserve_stock] is all or nothing. With enough stock
    among the batches of the query it returns lines whose quantities add up
    to the request, and every batch it wrote to has a reserved quantity within
    its current quantity; otherwise it raises the insufficient-stock error,
    which reports the stock that was available, and the session is the one
    before the call. Whenever it returns, the session is the one before the
    call with the lines applied and nothing else: no batch has two lines, the
    batch of each line had at least the line's quantity unreserved and now
    has its reserved quantity raised by exactly that quantity, and every
    batch without a line is as before. So no part of a reservation is
    visible after a failure, and no part of one is missing after a success. *)
Theorem reserve_stock_all_or_nothing pid quantity prefer_fifo db :
  0 ≤ quantity →
  all_or_nothing pid quantity prefer_fifo db ∧
  ∀ reservations db',
    reserve_stock pid quantity prefer_fifo db = (Returned reservations, db') →
    db' = with_batches (apply_plan reservations (batches db)) db ∧
    NoDup (r_batch_id <$> reservations) ∧
    (∀ line, line ∈ reservations →
       ∃ b, batches db !! r_batch_id line = Some b ∧
            0 < r_quantity line ≤ available_quantity b ∧
            batches db' !! r_batch_id line
            = Some (set_reserved_quantity
                      (reserved_quantity b + r_quantity line) b)) ∧
    (∀ id, id ∉ r_batch_id <$> reservations →
           batches db' !! id = batches db !! id).
Proof.
  intros Hq. split.
  - unfold all_or_nothing. rewrite reserve_stock_plan.
    set (rows := reservable_rows pid prefer_fifo (batches db)).
    pose proof (greedy_plan_total rows quantity
                  (reservable_rows_positive _ _ _) Hq) as Htotal.
    rewrite Htotal. split; intros Hav.
    + rewrite (proj2 (Z.ltb_ge _ _)) by lia.
      eexists _, _. split; [done|]. split; [lia|].
      intros id b' Hb'. simpl in Hb'.
      apply apply_greedy_plan_lookup in Hb' as [?|(b & take & ? & ? & ->)];
        [by right|left].
      unfold available_quantity in *. simpl. lia.
    + rewrite (proj2 (Z.ltb_lt _ _)) by lia. do 3 f_equal. lia.
  - intros reservations db' (Hplan & -> & _)%reserve_stock_returned.
    assert (NoDup (r_batch_id <$> reservations)) as Hnd
      by (rewrite Hplan; apply greedy_plan_NoDup).
    split_and!; [done|done|..].
    + intros line Hline. pose proof Hline as Hin. rewrite Hplan in Hline.
      apply greedy_plan_batch in Hline as (b & Hb & Hqty).
      exists b. split; [done|]. split; [done|].
      change (batches (with_batches ?m _)) with m.
      by rewrite apply_plan_lookup, Hb.
    + intros id Hid. change (batches (with_batches ?m _)) with m.
      by apply apply_plan_lookup_ne.
Qed.

Lemma reserve_stock_all_or_nothing_witness :
  0 ≤ 40 ∧
  (reserve_stock 1 40 true fixture_session).2
  = with_batches
      (apply_plan
         [sample_line 1 30;
          {| r_batch_id := 2; r_batch_number := "HIGH001"; r_quantity := 10;
             r_unit_price := 15; r_expiry_date := sample_today + 20 |}]
         (batches fixture_session)) fixture_session.
Proof.
  split; [lia|].
  eapply (reserve_stock_all_or_nothing 1 40 true fixture_session); [lia|].
  by vm_compute.
Defined.

(** ** Reservation: order and allocation *)

(** C2, as stated, fails: the query does not look at the expiry date or at
    the expired flag. A batch five days past its expiry date is served first,
    and it still is once it has been marked expired and restocked. *)
Lemma reserve_stock_serves_expired_batch :
  ∃ old new,
    batches stale_session !! 1 = Some old ∧
    batches stale_session !! 2 = Some new ∧
    is_expired old = true ∧ expiry_date old < sample_today ∧
    is_expired new = false ∧ sample_today ≤ expiry_date new ∧
    reservable_batches 1 true (batches stale_session) = [1; 2] ∧
    (reserve_stock 1 5 true stale_session).1
    = Returned [reservation_line 1 old 5] ∧
    (reserve_stock 1 5 true aged_session).1
    = Returned [reservation_line 1 (set_is_expired false old) 5].
Proof. eexists _, _. by vm_compute. Qed.

(** C2, amended: under the default FIFO policy [reserve_stock] considers
    exactly the product's active batches with
    [current_quantity > reserved_quantity], expired or not, each once and in
    ascending order of expiry date, and when the stock suffices it returns the
    greedy plan, which takes [min(remaining_needed, current - reserved)] from
    each batch in turn until the request is met. In the scenario of the
    specification a request for 40 units takes 30 from the 3-day batch and 10
    from the 20-day batch. *)
Theorem reserve_stock_fifo_allocation :
  (∀ pid quantity db,
     let rows := reservable_rows pid true (batches db) in
     reservable_batches pid true (batches db) = rows.*1 ∧
     (∀ id b, (id, b) ∈ rows ↔
        batches db !! id = Some b ∧ product_id b = pid ∧ is_active b = true ∧
        reserved_quantity b < current_quantity b) ∧
     NoDup rows.*1 ∧
     Sorted (λ x y, expiry_date x.2 ≤ expiry_date y.2) rows ∧
     (quantity ≤ total_available rows →
      (reserve_stock pid quantity true db).1
      = Returned (greedy_plan quantity rows))) ∧
  reservable_batches 1 true (batches fifo_session) = [3; 2; 1] ∧
  (reserve_stock 1 40 true fifo_session).1
  = Returned [sample_line 3 30;
              {| r_batch_id := 2; r_batch_number := "HIGH001"; r_quantity := 10;
                 r_unit_price := 15; r_expiry_date := sample_today + 20 |}].
Proof.
  split; [|by vm_compute].
  intros pid quantity db rows. split_and!.
  - done.
  - intros id b. unfold rows. rewrite elem_of_reservable_rows. done.
  - apply NoDup_reservable_rows.
  - eapply Sorted_weaken; [|apply stable_sort_Sorted, expiry_order_total].
    intros x y. unfold expiry_order. lia.
  - intros Hav. rewrite reserve_stock_plan. fold rows.
    destruct (Z.le_gt_cases quantity 0) as [Hq|Hq].
    + rewrite greedy_plan_nonpos by done. simpl.
      by rewrite Z.sub_0_r, (proj2 (Z.ltb_ge _ _) Hq).
    + rewrite greedy_plan_total;
        [|apply reservable_rows_positive|lia].
      by rewrite (proj2 (Z.ltb_ge _ _)) by lia.
Qed.

(** ** The batch invariant *)

Lemma store_ok_alter (f : InventoryBatch → InventoryBatch) id db :
  store_ok db →
  (∀ b, batches db !! id = Some b → batch_ok (f b)) →
  store_ok (with_batches (alter f id (batches db)) db).
Proof.
  intros Hok Hf id' b'. simpl. rewrite lookup_alter.
  destruct (decide (id = id')) as [<-|]; [|by apply Hok].
  destruct (batches db !! id) as [b|] eqn:Hb; [|done].
  intros [= <-]. by apply Hf.
Qed.

Lemma store_ok_add_movement m db : store_ok db → store_ok (add_movement m db).
Proof. done. Qed.

Lemma reserve_stock_store_ok pid quantity fifo db :
  store_ok db → store_ok (reserve_stock pid quantity fifo db).2.
Proof.
  intros Hok. rewrite reserve_stock_plan. destruct (0 <? _); [done|].
  intros id b' Hb'. simpl in Hb'.
  apply apply_greedy_plan_lookup in Hb' as [Hb|(b & take & Hb & ? & ->)];
    [by eapply Hok|].
  apply Hok in Hb. unfold batch_ok, available_quantity in *. simpl. lia.
Qed.

Lemma release_reservation_store_ok reservations db :
  Forall (λ r, 0 ≤ r_quantity r) reservations →
  store_ok db → store_ok (release_reservation reservations db).
Proof.
  intros Hq. revert db.
  induction Hq as [|r rest Hr _ IH]; intros db Hok; simpl; [done|].
  apply IH. unfold get_batch_by_id.
  destruct (batches db !! r_batch_id r) as [batch|] eqn:Hbatch; [|done].
  apply store_ok_alter; [done|]. intros b Hb.
  rewrite Hbatch in Hb. injection Hb as <-.
  apply Hok in Hbatch. unfold batch_ok in *. simpl. lia.
Qed.

(** The clamp of [release_reservation] keeps reserved quantities at or above
    zero whatever the lines are. *)
Lemma release_reservation_nonneg reservations db :
  reserved_nonneg db → reserved_nonneg (release_reservation reservations db).
Proof.
  revert db. induction reservations as [|r rest IH]; intros db Hok; simpl; [done|].
  apply IH. unfold get_batch_by_id.
  destruct (batches db !! r_batch_id r) as [batch|] eqn:Hbatch; [|done].
  intros id b. simpl. rewrite lookup_alter.
  destruct (decide (r_batch_id r = id)) as [<-|]; [|by apply Hok].
  rewrite Hbatch. intros [= <-]. simpl. lia.
Qed.

Lemma confirm_sale_store_ok reservations user_id sale_reference db :
  lines_backed reservations (batches db) →
  store_ok db → store_ok (confirm_sale reservations user_id sale_reference db).2.
Proof.
  revert db. induction reservations as [|r rest IH]; intros db Hlines Hok; [done|].
  simpl in *. unfold get_batch_by_id.
  destruct (batches db !! r_batch_id r) as [batch|] eqn:Hbatch; [|by apply IH].
  destruct Hlines as [Hq Hlines]. apply IH; [done|].
  apply store_ok_add_movement, store_ok_alter; [done|].
  intros b Hb. rewrite Hbatch in Hb. injection Hb as <-.
  apply Hok in Hbatch. unfold batch_ok in *. simpl. lia.
Qed.

Lemma adjust_stock_store_ok batch_id new_quantity user_id reason db :
  (∀ b, batches db !! batch_id = Some b → reserved_quantity b ≤ new_quantity) →
  store_ok db → store_ok (adjust_stock batch_id new_quantity user_id reason db).2.
Proof.
  intros Hnew Hok. unfold adjust_stock, get_batch_by_id.
  destruct (batches db !! batch_id) as [batch|] eqn:Hbatch; [|done].
  apply store_ok_add_movement, store_ok_alter; [done|].
  intros b Hb. rewrite Hbatch in Hb. injection Hb as <-.
  pose proof (Hnew _ eq_refl). apply Hok in Hbatch.
  unfold batch_ok in *. simpl. lia.
Qed.

Lemma mark_batch_expired_store_ok batch_id user_id db :
  (∀ b, batches db !! batch_id = Some b → reserved_quantity b = 0) →
  store_ok db → store_ok (mark_batch_expired batch_id user_id db).2.
Proof.
  intros Hfree Hok. unfold mark_batch_expired.
  destruct (batches db !! batch_id) as [batch|] eqn:Hbatch; [|done].
  destruct (current_quantity batch <=? 0); [done|].
  apply (store_ok_alter _ _ (add_movement _ db)); [done|].
  intros b Hb. simpl in Hb. rewrite Hbatch in Hb. injection Hb as <-.
  pose proof (Hfree _ eq_refl). unfold batch_ok. simpl. lia.
Qed.

(** C3, as stated, fails: [adjust_stock] writes the new quantity without
    looking at the reserved one, so adjusting a batch with 10 reserved units
    down to 5 leaves [reserved_quantity > current_quantity]. *)
Lemma adjust_stock_breaks_invariant :
  ∃ new_quantity,
    store_ok reserved_session ∧
    ¬ store_ok (adjust_stock 1 new_quantity 1 "recount" reserved_session).2.
Proof.
  exists 5. split; [apply (bool_decide_unpack _); by vm_compute|].
  intros H. specialize (H 1). vm_compute in H.
  specialize (H _ eq_refl) as [_ H]. by apply H.
Qed.

(** C3, amended: if every batch satisfies
    [0 ≤ reserved_quantity ≤ current_quantity] before the call, every batch
    does after [reserve_stock]; after [release_reservation] when no line has a
    negative quantity, and releasing the same reservation twice never leaves a
    reserved quantity below zero whatever its lines; after [confirm_sale] when
    each line finds its quantity reserved; after [adjust_stock] when the new
    quantity is not below the reserved quantity of the batch; and after
    [mark_batch_expired] when the batch has nothing reserved. *)
Theorem batch_invariant_preserved db :
  store_ok db →
  (∀ pid quantity prefer_fifo,
     store_ok (reserve_stock pid quantity prefer_fifo db).2) ∧
  (∀ reservations,
     Forall (λ r, 0 ≤ r_quantity r) reservations →
     store_ok (release_reservation reservations db) ∧
     store_ok (release_reservation reservations
                 (release_reservation reservations db))) ∧
  (∀ reservations id b,
     batches (release_reservation reservations
                (release_reservation reservations db)) !! id = Some b →
     0 ≤ reserved_quantity b) ∧
  (∀ reservations user_id sale_reference,
     lines_backed reservations (batches db) →
     store_ok (confirm_sale reservations user_id sale_reference db).2) ∧
  (∀ batch_id new_quantity user_id reason,
     (∀ b, batches db !! batch_id = Some b → reserved_quantity b ≤ new_quantity) →
     store_ok (adjust_stock batch_id new_quantity user_id reason db).2) ∧
  (∀ batch_id user_id,
     (∀ b, batches db !! batch_id = Some b → reserved_quantity b = 0) →
     store_ok (mark_batch_expired batch_id user_id db).2).
Proof.
  intros Hok. split_and!.
  - intros. by apply reserve_stock_store_ok.
  - intros rs Hrs. split; repeat apply release_reservation_store_ok; done.
  - intros rs. apply release_reservation_nonneg, release_reservation_nonneg.
    intros id b Hb. by destruct (Hok id b Hb).
  - intros. by apply confirm_sale_store_ok.
  - intros. by apply adjust_stock_store_ok.
  - intros. by apply mark_batch_expired_store_ok.
Qed.

Lemma batch_invariant_preserved_witness :
  store_ok reserved_session ∧
  store_ok (reserve_stock 1 15 true reserved_session).2 ∧
  store_ok (release_reservation [sample_line 1 4; sample_line 1 8]
              (release_reservation [sample_line 1 4; sample_line 1 8]
                 reserved_session)) ∧
  store_ok (confirm_sale [sample_line 1 4; sample_line 1 6] 1 "POS1"
              reserved_session).2 ∧
  store_ok (adjust_stock 1 10 1 "recount" reserved_session).2.
Proof.
  assert (store_ok reserved_session) as Hok
    by (apply (bool_decide_unpack _); by vm_compute).
  destruct (batch_invariant_preserved reserved_session Hok)
    as (Hreserve & Hrelease & _ & Hconfirm & Hadjust & _).
  split_and!.
  - exact Hok.
  - apply Hreserve.
  - apply Hrelease. repeat constructor; by vm_compute.
  - apply Hconfirm. by vm_compute.
  - apply Hadjust. intros b Hb. vm_compute in Hb. injection Hb as <-. by vm_compute.
Defined.

(** ** Ordering of the alerts *)

Lemma score_order_total x y : score_order x y = false → score_order y x = true.
Proof.
  unfold score_order. intros H. apply Qle_bool_iff.
  destruct (Qlt_le_dec (priority_score x) (priority_score y)) as [?|Hle].
  - by apply Qlt_le_weak.
  - apply Qle_bool_iff in Hle. congruence.
Qed.

(** C6, as stated, fails: the sort has no tie-break. Two alerts of equal
    score come out in the order of the scan, here 500 days before 400. *)
Lemma expiry_alerts_ties_keep_scan_order :
  ∃ a b,
    get_expiry_alerts default_settings sample_today None 1 true tie_session
    = [a; b] ∧
    (priority_score a == priority_score b)%Q ∧
    days_until_expiry a = 500 ∧ days_until_expiry b = 400.
Proof. eexists _, _. by vm_compute. Qed.

(** C6, amended: the alerts returned by [get_expiry_alerts] are the alerts
    collected from the scan, sorted in descending order of priority score; the
    sort is stable, so alerts of equal score keep the order in which the scan
    produced them, and [days_until_expiry] plays no part. *)
Theorem expiry_alerts_sorted_by_score settings today alert_levels min_quantity
  include_expired db :
  let collected :=
    collect_alerts settings today alert_levels min_quantity include_expired db in
  let alerts :=
    get_expiry_alerts settings today alert_levels min_quantity include_expired db in
  (∀ i a b, alerts !! i = Some a → alerts !! S i = Some b →
            (priority_score b <= priority_score a)%Q) ∧
  alerts ≡ₚ collected ∧
  (∀ score : Q,
     filter (λ a, priority_score a == score)%Q alerts
     = filter (λ a, priority_score a == score)%Q collected).
Proof.
  intros collected alerts. unfold alerts, get_expiry_alerts. fold collected.
  split_and!.
  - intros i a b Ha Hb. apply Qle_bool_iff.
    eapply (Sorted_adjacent (λ a b, score_order a b = true)); [|done..].
    apply stable_sort_Sorted, score_order_total.
  - apply stable_sort_Permutation.
  - intros score. apply filter_stable_sort.
    intros x y Hx Hy. apply Qle_bool_iff. rewrite Hx, Hy. apply Qle_refl.
Qed.

(** ** Confirmation *)

(** C7, as stated, fails: a line on a batch that does not exist is skipped,
    a line larger than the reserved quantity is applied, and the call returns
    normally after processing the other lines. *)
Lemma confirm_sale_skips_failing_lines :
  ∃ reservations user_id sale_reference db,
    (∃ line, line ∈ reservations ∧ ¬ line_applicable db line) ∧
    ∃ db' batch,
      confirm_sale reservations user_id sale_reference db = (Returned (), db') ∧
      batches db' !! 1 = Some batch ∧
      current_quantity batch = 27 ∧ reserved_quantity batch = -3 ∧
      length (movements db') = 1%nat.
Proof.
  exists [sample_line 99 5; sample_line 1 3], 7, "POS1", fixture_session.
  split.
  - exists (sample_line 99 5). split; [left|].
    intros (batch & Hbatch & _). by vm_compute in Hbatch.
  - eexists _, _. by vm_compute.
Qed.

(** C7, amended: [confirm_sale] never fails. It returns normally for every
    reservation and session; a line whose batch does not exist is skipped and
    the remaining lines are processed; a line whose batch exists is applied
    without any check, [current_quantity] and [reserved_quantity] both drop by
    the line's quantity and one SALE movement of minus that quantity is
    recorded. *)
Theorem confirm_sale_never_fails reservations user_id sale_reference db :
  (∃ db', confirm_sale reservations user_id sale_reference db
          = (Returned (), db')) ∧
  (∀ line, get_batch_by_id (r_batch_id line) db = None →
     confirm_sale (line :: reservations) user_id sale_reference db
     = confirm_sale reservations user_id sale_reference db) ∧
  (∀ line batch, get_batch_by_id (r_batch_id line) db = Some batch →
     ∃ db1,
       confirm_sale (line :: reservations) user_id sale_reference db
       = confirm_sale reservations user_id sale_reference db1 ∧
       batches db1 !! r_batch_id line
       = Some (set_reserved_quantity (reserved_quantity batch - r_quantity line)
                 (set_current_quantity
                    (current_quantity batch - r_quantity line) batch)) ∧
       (∀ id, id ≠ r_batch_id line → batches db1 !! id = batches db !! id) ∧
       ∃ movement,
         movements db1 = (movements db ++ [movement])%list ∧
         movement_type movement = SALE ∧
         movement_quantity movement = - r_quantity line ∧
         movement_batch_id movement = Some (r_batch_id line)).
Proof.
  split_and!.
  - revert db. induction reservations as [|line rest IH]; intros db; simpl.
    + by eexists.
    + destruct (get_batch_by_id _ db); apply IH.
  - intros line Hnone. simpl. by rewrite Hnone.
  - intros line batch Hbatch. simpl. rewrite Hbatch.
    eexists. split; [done|]. unfold get_batch_by_id in Hbatch. simpl.
    split_and!.
    + by rewrite lookup_alter_eq, Hbatch.
    + intros id Hid. by rewrite lookup_alter_ne.
    + by eexists.
Qed.

(** ** Expiry summary *)

Lemma elem_of_joined_rows db id b p :
  (id, b, p) ∈ joined_rows db ↔
  batches db !! id = Some b ∧ products db !! product_id b = Some p.
Proof.
  unfold joined_rows. rewrite list_elem_of_omap. split.
  - intros ([id' b'] & Hrow%elem_of_table_rows & Hjoin). simpl in Hjoin.
    destruct (products db !! product_id b') as [p'|] eqn:Hp; [|done].
    simpl in Hjoin. by injection Hjoin as -> -> ->.
  - intros [Hb Hp]. exists (id, b). split; [by apply elem_of_table_rows|].
    simpl. by rewrite Hp.
Qed.

Lemma NoDup_joined_rows db : NoDup (joined_rows db).*1.*1.
Proof.
  unfold joined_rows.
  eapply sublist_NoDup; [apply (NoDup_table_rows (batches db))|].
  apply fmap_sublist.
  induction (table_rows (batches db)) as [|row rows IH]; simpl; [done|].
  destruct (products db !! product_id row.2); simpl.
  - destruct row. by apply sublist_skip.
  - by apply sublist_cons.
Qed.

(** C8: in the summary, the bucket of every level but INFO aggregates
    exactly the active, in-stock batches of active products with
    [today ≤ expiry_date ≤ today + threshold], each batch once, INFO has no
    bucket, and the expired bucket aggregates exactly those with
    [expiry_date < today]. The windows are cumulative: a batch counted for a
    threshold is counted for every larger one, so with thresholds in
    ascending order, as the default ones are, CRITICAL is within HIGH, HIGH
    within MEDIUM and MEDIUM within LOW; no batch of the expired bucket is in
    any window. *)
Theorem expiry_summary_buckets settings today db :
  let summary := get_expiry_summary settings today db in
  let rows := joined_rows db in
  let counted (max_days : Z) :=
    filter (λ row : Z * InventoryBatch * Product,
              is_active row.1.2 = true ∧ 0 < current_quantity row.1.2 ∧
              product_is_active row.2 = true ∧
              today ≤ expiry_date row.1.2 ≤ today + max_days) rows in
  let lapsed :=
    filter (λ row : Z * InventoryBatch * Product,
              is_active row.1.2 = true ∧ 0 < current_quantity row.1.2 ∧
              product_is_active row.2 = true ∧
              expiry_date row.1.2 < today) rows in
  (∀ id b p, (id, b, p) ∈ rows ↔
     batches db !! id = Some b ∧ products db !! product_id b = Some p) ∧
  NoDup rows.*1.*1 ∧
  expiry_breakdown summary !! "critical"
  = Some (aggregate (counted (expiry_alert_1_week settings))) ∧
  expiry_breakdown summary !! "high"
  = Some (aggregate (counted (expiry_alert_1_month settings))) ∧
  expiry_breakdown summary !! "medium"
  = Some (aggregate (counted (expiry_alert_3_months settings))) ∧
  expiry_breakdown summary !! "low"
  = Some (aggregate (counted (expiry_alert_6_months settings))) ∧
  expiry_breakdown summary !! "info" = None ∧
  expired summary = aggregate lapsed ∧
  (∀ rows', bucket_batches (aggregate rows') = Z.of_nat (length rows')) ∧
  (∀ d1 d2 row, d1 ≤ d2 → row ∈ counted d1 → row ∈ counted d2) ∧
  (∀ d row, row ∈ lapsed → row ∉ counted d).
Proof.
  intros summary rows counted lapsed.
  assert (∀ d, counted d = filter (in_window today d) rows) as Hcounted.
  { intros d. apply list_filter_iff. intros row.
    unfold in_window, in_stock. tauto. }
  assert (lapsed = filter (already_expired today) rows) as Hlapsed.
  { apply list_filter_iff. intros row. unfold already_expired, in_stock. tauto. }
  split_and!.
  - apply elem_of_joined_rows.
  - apply NoDup_joined_rows.
  - by rewrite Hcounted.
  - by rewrite Hcounted.
  - by rewrite Hcounted.
  - by rewrite Hcounted.
  - done.
  - by rewrite Hlapsed.
  - done.
  - intros d1 d2 row Hd. unfold counted.
    rewrite !list_elem_of_filter. intros [(? & ? & ? & ? & ?) ?].
    split; [|done]. split_and!; [done..|lia].
  - intros d row. unfold counted, lapsed.
    rewrite !list_elem_of_filter. intros [(? & ? & ? & ?) ?] [(? & ? & ? & ? & ?) ?].
    lia.
Qed.

(** ** The fixture of the test suite *)

(** The scenario of [tests/test_expiry_service.py]: five alerts, one per
    level, here in the order of their scores; the CRITICAL filter keeps the
    3-day batch alone; a minimum quantity of 100 keeps the three larger
    batches; the summary counts five batches, and its windows hold 1, 2, 3 and
    4 of them. *)
Example fixture_scenario :
  let alerts levels min_quantity :=
    get_expiry_alerts default_settings sample_today levels min_quantity false
      fixture_session in
  let summary := get_expiry_summary default_settings sample_today fixture_session in
  alert_level <$> alerts None 1 = [HIGH; MEDIUM; LOW; CRITICAL; INFO] ∧
  a_batch_number <$> alerts (Some [CRITICAL]) 1 = ["CRITICAL001"] ∧
  a_current_quantity <$> alerts None 100 = [150; 250; 350] ∧
  total_batches summary = 5 ∧
  (λ level, bucket_batches <$> expiry_breakdown summary !! level_value level)
    <$> all_levels
  = [Some 1; Some 2; Some 3; Some 4; None] ∧
  bucket_batches (expired summary) = 0.
Proof. cbv zeta. split_and!; by vm_compute. Qed.

(** * Further properties of the services *)

(** ** Folds of field updates over reservation lines *)

Section alter_lines.
Context (f : Reservation → InventoryBatch → InventoryBatch).

Lemma alter_lines_lookup_ne plan (bs : gmap Z InventoryBatch) id :
  id ∉ r_batch_id <$> plan →
  foldl (λ m r, alter (f r) (r_batch_id r) m) bs plan !! id = bs !! id.
Proof.
  revert bs. induction plan as [|r plan IH]; intros bs Hid; simpl; [done|].
  rewrite fmap_cons, not_elem_of_cons in Hid. destruct Hid as [Hne Hid].
  rewrite IH by done. by rewrite lookup_alter_ne.
Qed.

Lemma alter_lines_lookup plan (bs : gmap Z InventoryBatch) line :
  NoDup (r_batch_id <$> plan) → line ∈ plan →
  foldl (λ m r, alter (f r) (r_batch_id r) m) bs plan !! r_batch_id line
  = f line <$> bs !! r_batch_id line.
Proof.
  revert bs. induction plan as [|r plan IH]; intros bs Hnd Hin.
  { by apply elem_of_nil in Hin. }
  rewrite fmap_cons in Hnd. apply NoDup_cons in Hnd as [Hr Hnd]. simpl.
  apply elem_of_cons in Hin as [->|Hin].
  - rewrite alter_lines_lookup_ne by done. by rewrite lookup_alter_eq.
  - rewrite IH by done. rewrite lookup_alter_ne; [done|].
    intros Heq. apply Hr. rewrite Heq. by apply list_elem_of_fmap_2.
Qed.

End alter_lines.

(** ** Reserve, then release or confirm *)

Lemma with_batches_with_batches bs bs' db :
  with_batches bs (with_batches bs' db) = with_batches bs db.
Proof. done. Qed.

Lemma release_reservation_apply_plan plan (bs : gmap Z InventoryBatch) db :
  NoDup (r_batch_id <$> plan) →
  (∀ line, line ∈ plan →
     ∃ b, bs !! r_batch_id line = Some b ∧ 0 ≤ reserved_quantity b) →
  release_reservation plan (with_batches (apply_plan plan bs) db)
  = with_batches bs db.
Proof.
  revert bs. induction plan as [|r plan IH]; intros bs Hnd Hlines; [done|].
  rewrite fmap_cons in Hnd. apply NoDup_cons in Hnd as [Hr Hnd].
  destruct (Hlines r) as (b & Hb & Hres); [left|].
  cbn [release_reservation]. unfold get_batch_by_id.
  change (batches (with_batches ?m _)) with m.
  change (apply_plan (r :: plan) bs) with
    (apply_plan plan (alter (λ b, set_reserved_quantity
                       (reserved_quantity b + r_quantity r) b) (r_batch_id r) bs)).
  rewrite apply_plan_lookup_ne, lookup_alter_eq, Hb by done. simpl.
  rewrite with_batches_with_batches, alter_apply_plan_commute by done.
  rewrite alter_alter_eq, alter_id.
  - apply IH; [done|]. intros line Hline. apply Hlines. by right.
  - intros b' Hb'. rewrite Hb in Hb'. injection Hb' as <-.
    destruct b. unfold set_reserved_quantity. simpl in *. f_equal. lia.
Qed.

(** X1: releasing a reservation that [reserve_stock] has just returned
    brings the session back to the state before the reservation, provided no
    reserved quantity was negative. *)
Theorem reserve_then_release_restores pid quantity prefer_fifo db reservations db' :
  reserved_nonneg db →
  reserve_stock pid quantity prefer_fifo db = (Returned reservations, db') →
  release_reservation reservations db' = db.
Proof.
  intros Hnn (-> & -> & _)%reserve_stock_returned.
  rewrite release_reservation_apply_plan.
  - apply with_batches_id.
  - apply greedy_plan_NoDup.
  - intros line (b & Hb & _)%greedy_plan_batch. exists b. split; [done|].
    by eapply Hnn.
Qed.

Lemma reserve_then_release_restores_witness :
  reserved_nonneg fixture_session ∧
  release_reservation
    [sample_line 1 30;
     {| r_batch_id := 2; r_batch_number := "HIGH001"; r_quantity := 10;
        r_unit_price := 15; r_expiry_date := sample_today + 20 |}]
    (reserve_stock 1 40 true fixture_session).2
  = fixture_session.
Proof.
  assert (reserved_nonneg fixture_session) as Hnn.
  { intros id b Hb. apply (bool_decide_unpack _).
    revert id b Hb. apply (bool_decide_unpack _). by vm_compute. }
  split; [exact Hnn|].
  apply (reserve_then_release_restores 1 40 true fixture_session); [exact Hnn|].
  by vm_compute.
Defined.

Lemma confirm_sale_batches reservations user_id sale_reference db :
  batches (confirm_sale reservations user_id sale_reference db).2
  = foldl (λ m r, alter (λ b, set_reserved_quantity
                                (reserved_quantity b - r_quantity r)
                                (set_current_quantity
                                   (current_quantity b - r_quantity r) b))
                    (r_batch_id r) m) (batches db) reservations.
Proof.
  revert db. induction reservations as [|r rest IH]; intros db; [done|].
  simpl. unfold get_batch_by_id.
  destruct (batches db !! r_batch_id r) as [batch|] eqn:Hbatch.
  - by rewrite IH.
  - rewrite IH. f_equal. symmetry. apply alter_id. congruence.
Qed.

(** X2: a reservation that [reserve_stock] returned and [confirm_sale] then
    confirms keeps the batch invariant, puts every reserved quantity back to
    its value before the reservation, lowers the current quantity of each
    line's batch by the line's quantity and touches no other batch; for a
    request that is not negative the quantities sold add up to the request. *)
Theorem reserve_then_confirm_sells pid quantity prefer_fifo user_id sale_reference
  db reservations db1 :
  store_ok db →
  reserve_stock pid quantity prefer_fifo db = (Returned reservations, db1) →
  let db2 := (confirm_sale reservations user_id sale_reference db1).2 in
  store_ok db2 ∧
  (∀ id, reserved_quantity <$> batches db2 !! id
         = reserved_quantity <$> batches db !! id) ∧
  (∀ line, line ∈ reservations →
     ∃ b, batches db !! r_batch_id line = Some b ∧
          0 < r_quantity line ≤ current_quantity b ∧
          batches db2 !! r_batch_id line
          = Some (set_current_quantity
                    (current_quantity b - r_quantity line) b)) ∧
  (∀ id, id ∉ r_batch_id <$> reservations →
         batches db2 !! id = batches db !! id) ∧
  (0 ≤ quantity → total_quantity_of reservations = quantity).
Proof.
  intros Hok Hrun db2.
  pose proof Hrun as (Hplan & -> & Hq)%reserve_stock_returned.
  assert (NoDup (r_batch_id <$> reservations)) as Hnd
    by (rewrite Hplan; apply greedy_plan_NoDup).
  assert (∀ line, line ∈ reservations →
            ∃ b, batches db !! r_batch_id line = Some b ∧
                 0 < r_quantity line ≤ available_quantity b ∧
                 batches db2 !! r_batch_id line
                 = Some (set_current_quantity
                           (current_quantity b - r_quantity line) b))
    as Hlines.
  { intros line Hline. pose proof Hline as Hline'. rewrite Hplan in Hline'.
    apply greedy_plan_batch in Hline' as (b & Hb & Htake).
    exists b. split; [done|]. split; [done|].
    unfold db2. rewrite confirm_sale_batches.
    rewrite alter_lines_lookup by done. simpl.
    rewrite apply_plan_lookup, Hb by done. simpl. f_equal.
    destruct b. unfold set_reserved_quantity, set_current_quantity. simpl.
    f_equal. lia. }
  assert (∀ id, id ∉ r_batch_id <$> reservations →
                batches db2 !! id = batches db !! id) as Hothers.
  { intros id Hid. unfold db2. rewrite confirm_sale_batches.
    rewrite alter_lines_lookup_ne by done. simpl.
    by rewrite apply_plan_lookup_ne. }
  split_and!.
  - intros id b2 Hb2.
    destruct (decide (id ∈ r_batch_id <$> reservations)) as [Hin|Hout].
    + apply list_elem_of_fmap in Hin as (line & -> & Hline).
      destruct (Hlines line Hline) as (b & Hb & Htake & Hb2').
      rewrite Hb2' in Hb2. injection Hb2 as <-. apply Hok in Hb.
      unfold batch_ok, available_quantity in *. simpl. lia.
    + rewrite Hothers in Hb2 by done. by eapply Hok.
  - intros id.
    destruct (decide (id ∈ r_batch_id <$> reservations)) as [Hin|Hout].
    + apply list_elem_of_fmap in Hin as (line & -> & Hline).
      destruct (Hlines line Hline) as (b & Hb & _ & ->). by rewrite Hb.
    + by rewrite Hothers.
  - intros line Hline. destruct (Hlines line Hline) as (b & Hb & Htake & Hb2).
    exists b. split; [done|]. split; [|done]. apply Hok in Hb.
    unfold batch_ok, available_quantity in *. lia.
  - done.
  - intros Hq0.
    pose proof (greedy_plan_total (reservable_rows pid prefer_fifo (batches db))
                  quantity (reservable_rows_positive _ _ _) Hq0) as Htotal.
    rewrite <-Hplan in Htotal. lia.
Qed.

Lemma reserve_then_confirm_sells_witness :
  store_ok fixture_session ∧
  store_ok (confirm_sale (greedy_plan 40 (reservable_rows 1 true
                                            (batches fixture_session)))
              7 "POS1" (reserve_stock 1 40 true fixture_session).2).2.
Proof.
  assert (store_ok fixture_session) as Hok
    by (apply (bool_decide_unpack _); by vm_compute).
  split; [exact Hok|].
  eapply (reserve_then_confirm_sells 1 40 true 7 "POS1" fixture_session);
    [exact Hok|by vm_compute].
Defined.

(** ** The audit trail *)

Lemma movement_total_app id ms1 ms2 :
  movement_total id (ms1 ++ ms2) = movement_total id ms1 + movement_total id ms2.
Proof.
  induction ms1 as [|m ms1 IH]; simpl; [done|].
  destruct (bool_decide _); lia.
Qed.

Lemma stock_accounted_refl db : stock_accounted db db.
Proof.
  exists []. split; [by rewrite app_nil_r|].
  intros id b Hb. exists b. split; [done|]. simpl. lia.
Qed.

Lemma stock_accounted_trans db1 db2 db3 :
  stock_accounted db1 db2 → stock_accounted db2 db3 → stock_accounted db1 db3.
Proof.
  intros (new1 & Hm1 & H1) (new2 & Hm2 & H2). exists (new1 ++ new2)%list.
  split; [by rewrite Hm2, Hm1, app_assoc|].
  intros id b Hb. destruct (H1 id b Hb) as (b2 & Hb2 & Hc2).
  destruct (H2 id b2 Hb2) as (b3 & Hb3 & Hc3).
  exists b3. split; [done|]. rewrite movement_total_app. lia.
Qed.

(** A write to one batch together with one movement on that batch of the
    same signed quantity. *)
Lemma stock_accounted_step (f : InventoryBatch → InventoryBatch) id m db :
  movement_batch_id m = Some id →
  (∀ b, batches db !! id = Some b →
        current_quantity (f b) = current_quantity b + movement_quantity m) →
  stock_accounted db
    (add_movement m (with_batches (alter f id (batches db)) db)).
Proof.
  intros Hm Hf. exists [m]. split; [done|].
  intros id' b Hb. simpl. rewrite lookup_alter.
  destruct (decide (id = id')) as [<-|Hne].
  - rewrite Hb. eexists. split; [done|].
    rewrite Hf by done. rewrite bool_decide_eq_true_2 by done. lia.
  - exists b. split; [done|].
    rewrite bool_decide_eq_false_2; [lia|]. rewrite Hm. congruence.
Qed.

(** A write that leaves current quantities alone and adds no movement. *)
Lemma stock_accounted_silent (bs' : gmap Z InventoryBatch) db :
  (∀ id b, batches db !! id = Some b →
     ∃ b', bs' !! id = Some b' ∧ current_quantity b' = current_quantity b) →
  stock_accounted db (with_batches bs' db).
Proof.
  intros H. exists []. split; [by rewrite app_nil_r|].
  intros id b Hb. destruct (H id b Hb) as (b' & ? & ?).
  exists b'. split; [done|]. simpl. lia.
Qed.

Lemma confirm_sale_accounted reservations user_id sale_reference db :
  stock_accounted db (confirm_sale reservations user_id sale_reference db).2.
Proof.
  revert db. induction reservations as [|r rest IH]; intros db.
  { apply stock_accounted_refl. }
  simpl. unfold get_batch_by_id.
  destruct (batches db !! r_batch_id r) as [batch|] eqn:Hbatch; [|apply IH].
  eapply stock_accounted_trans; [|apply IH].
  apply (stock_accounted_step _ (r_batch_id r)); [done|].
  intros b _. simpl. lia.
Qed.

Lemma release_reservation_accounted reservations db :
  stock_accounted db (release_reservation reservations db).
Proof.
  revert db. induction reservations as [|r rest IH]; intros db.
  { apply stock_accounted_refl. }
  simpl. eapply stock_accounted_trans; [|apply IH]. unfold get_batch_by_id.
  destruct (batches db !! r_batch_id r) as [batch|] eqn:Hbatch;
    [|apply stock_accounted_refl].
  apply stock_accounted_silent. intros id b Hb. rewrite lookup_alter.
  destruct (decide (r_batch_id r = id)) as [<-|]; [|by exists b].
  rewrite Hb. by eexists.
Qed.

Lemma reserve_stock_accounted pid quantity fifo db :
  stock_accounted db (reserve_stock pid quantity fifo db).2.
Proof.
  rewrite reserve_stock_plan. destruct (0 <? _); [apply stock_accounted_refl|].
  apply stock_accounted_silent. intros id b Hb.
  destruct (apply_plan (greedy_plan quantity
              (reservable_rows pid fifo (batches db))) (batches db) !! id)
    as [b'|] eqn:Hb'.
  - exists b'. split; [done|].
    apply apply_greedy_plan_lookup in Hb' as [Hsame|(b0 & take & Hb0 & _ & ->)].
    + congruence.
    + rewrite Hb in Hb0. by injection Hb0 as <-.
  - destruct (decide (id ∈ r_batch_id <$> greedy_plan quantity
                (reservable_rows pid fifo (batches db)))) as [Hin|Hout].
    + apply list_elem_of_fmap in Hin as (line & -> & Hline).
      rewrite apply_plan_lookup, Hb in Hb'; [done|apply greedy_plan_NoDup|done].
    + rewrite apply_plan_lookup_ne, Hb in Hb'; done.
Qed.

(** X3: the stock movements account for every change of a current
    quantity. Across [reserve_stock], [release_reservation], [confirm_sale],
    [adjust_stock] and [mark_batch_expired] the audit trail only grows, no
    batch disappears, and each batch's current quantity moves by exactly the
    signed quantity that the movements added by the call book on it; the
    first two add no movement. *)
Theorem movements_account_for_stock db :
  (∀ pid quantity prefer_fifo,
     let db' := (reserve_stock pid quantity prefer_fifo db).2 in
     stock_accounted db db' ∧ movements db' = movements db) ∧
  (∀ reservations,
     let db' := release_reservation reservations db in
     stock_accounted db db' ∧ movements db' = movements db) ∧
  (∀ reservations user_id sale_reference,
     stock_accounted db (confirm_sale reservations user_id sale_reference db).2) ∧
  (∀ batch_id new_quantity user_id reason,
     stock_accounted db (adjust_stock batch_id new_quantity user_id reason db).2) ∧
  (∀ batch_id user_id,
     stock_accounted db (mark_batch_expired batch_id user_id db).2).
Proof.
  split_and!.
  - intros. split; [apply reserve_stock_accounted|].
    unfold db'. rewrite reserve_stock_plan. by destruct (0 <? _).
  - intros reservations db'. split; [apply release_reservation_accounted|].
    unfold db'. clear db'. revert db.
    induction reservations as [|r rest IH]; intros db; [done|].
    simpl. rewrite IH. by destruct (get_batch_by_id _ db).
  - intros. apply confirm_sale_accounted.
  - intros batch_id new_quantity user_id reason.
    unfold adjust_stock, get_batch_by_id.
    destruct (batches db !! batch_id) as [batch|] eqn:Hbatch;
      [|apply stock_accounted_refl].
    apply (stock_accounted_step _ batch_id); [done|].
    intros b Hb. rewrite Hbatch in Hb. injection Hb as <-. simpl. lia.
  - intros batch_id user_id. unfold mark_batch_expired.
    destruct (batches db !! batch_id) as [batch|] eqn:Hbatch;
      [|apply stock_accounted_refl].
    destruct (current_quantity batch <=? 0); [apply stock_accounted_refl|].
    simpl. eexists [_]. split; [done|].
    intros id b Hb. simpl. rewrite lookup_alter.
    destruct (decide (batch_id = id)) as [<-|Hne].
    + rewrite Hb. eexists. split; [done|].
      rewrite Hbatch in Hb. injection Hb as <-.
      rewrite bool_decide_eq_true_2 by done. simpl. lia.
    + exists b. split; [done|].
      rewrite bool_decide_eq_false_2; [lia|]. simpl. congruence.
Qed.

(** ** Available stock *)

Lemma sum_current_quantity_Permutation rows rows' :
  rows ≡ₚ rows' → sum_current_quantity rows = sum_current_quantity rows'.
Proof. induction 1; simpl in *; lia. Qed.

Lemma total_available_Permutation rows rows' :
  rows ≡ₚ rows' → total_available rows = total_available rows'.
Proof. induction 1; simpl in *; lia. Qed.

Lemma stock_of_cons pid row rows :
  sum_current_quantity (filter (stock_condition pid) (row :: rows))
  = counted_stock pid row.2
    + sum_current_quantity (filter (stock_condition pid) rows).
Proof.
  rewrite filter_cons. unfold counted_stock, stock_condition.
  destruct (decide (_ ∧ _ ∧ _)) as [(? & ? & ?)|Hno].
  - rewrite decide_True by done. simpl. lia.
  - destruct (decide (_ ∧ _)) as [[]|]; [|lia].
    assert (current_quantity row.2 ≤ 0) by (apply Z.nlt_ge; tauto). lia.
Qed.

Lemma stock_of_Permutation pid rows rows' :
  rows ≡ₚ rows' →
  sum_current_quantity (filter (stock_condition pid) rows)
  = sum_current_quantity (filter (stock_condition pid) rows').
Proof. intros H. apply sum_current_quantity_Permutation. by rewrite H. Qed.

Lemma table_rows_insert {A : Type} (t : gmap Z A) id x :
  t !! id = None → table_rows (<[id := x]> t) ≡ₚ (id, x) :: table_rows t.
Proof.
  intros Hid. unfold table_rows.
  by rewrite !stable_sort_Permutation, map_to_list_insert.
Qed.

Lemma table_rows_lookup {A : Type} (t : gmap Z A) id x :
  t !! id = Some x → table_rows t ≡ₚ (id, x) :: table_rows (delete id t).
Proof.
  intros Hid. unfold table_rows.
  by rewrite !stable_sort_Permutation, map_to_list_delete.
Qed.

Lemma table_rows_alter {A : Type} (f : A → A) (t : gmap Z A) id x :
  t !! id = Some x →
  table_rows (alter f id t) ≡ₚ (id, f x) :: table_rows (delete id t).
Proof.
  intros Hid.
  assert (alter f id t = <[id := f x]> (delete id t)) as ->.
  { apply map_eq. intros k. rewrite lookup_alter, lookup_insert.
    destruct (decide (id = k)) as [<-|]; [by rewrite Hid|].
    by rewrite lookup_delete_ne. }
  apply table_rows_insert, lookup_delete_eq.
Qed.

Lemma get_available_stock_alter (f : InventoryBatch → InventoryBatch) pid id b db :
  batches db !! id = Some b →
  get_available_stock pid (with_batches (alter f id (batches db)) db)
  = get_available_stock pid db - counted_stock pid b + counted_stock pid (f b).
Proof.
  intros Hb. unfold get_available_stock. simpl.
  rewrite (stock_of_Permutation _ _ _ (table_rows_alter f _ _ _ Hb)).
  rewrite (stock_of_Permutation _ _ _ (table_rows_lookup _ _ _ Hb)).
  rewrite !stock_of_cons. simpl. lia.
Qed.

Lemma get_available_stock_nonneg pid db : 0 ≤ get_available_stock pid db.
Proof.
  unfold get_available_stock.
  induction (table_rows (batches db)) as [|row rows IH]; [done|].
  rewrite stock_of_cons. unfold counted_stock. destruct (decide _); lia.
Qed.

Lemma total_available_le_stock pid rows :
  Forall (λ row : Z * InventoryBatch, 0 ≤ reserved_quantity row.2) rows →
  total_available (filter (reservable pid) rows)
  ≤ sum_current_quantity (filter (stock_condition pid) rows).
Proof.
  induction 1 as [|row rows Hrow _ IH]; [done|].
  rewrite stock_of_cons, filter_cons. unfold counted_stock.
  destruct (decide (reservable pid row)) as [(? & ? & ?)|Hno].
  - rewrite decide_True by done.
    change (total_available (row :: ?l))
      with (available_quantity row.2 + total_available l).
    unfold available_quantity. lia.
  - destruct (decide _); lia.
Qed.

Lemma total_available_eq_stock pid rows :
  Forall (λ row : Z * InventoryBatch, reserved_quantity row.2 = 0) rows →
  total_available (filter (reservable pid) rows)
  = sum_current_quantity (filter (stock_condition pid) rows).
Proof.
  induction 1 as [|row rows Hrow _ IH]; [done|].
  rewrite stock_of_cons, filter_cons. unfold counted_stock.
  destruct (decide (reservable pid row)) as [(? & ? & ?)|Hno].
  - rewrite decide_True by done.
    change (total_available (row :: ?l))
      with (available_quantity row.2 + total_available l).
    unfold available_quantity. lia.
  - destruct (decide (_ ∧ _)) as [[]|]; [|lia].
    assert (current_quantity row.2 ≤ 0).
    { apply Z.nlt_ge. intros ?. apply Hno. unfold reservable.
      by rewrite Hrow. }
    lia.
Qed.

Lemma total_available_reservable_rows pid fifo (bs : gmap Z InventoryBatch) :
  total_available (reservable_rows pid fifo bs)
  = total_available (filter (reservable pid) (table_rows bs)).
Proof.
  apply total_available_Permutation. unfold reservable_rows.
  apply stable_sort_Permutation.
Qed.

(** X4: [get_available_stock], which the cart checks, never reports less
    than [reserve_stock] can serve when no reserved quantity is negative, and
    exactly as much when nothing is reserved. So a request above the reported
    stock always raises and leaves the session as it was, and a returned
    reservation never exceeds the reported stock. *)
Theorem available_stock_bounds_reservation pid prefer_fifo db :
  reserved_nonneg db →
  let reservable_stock :=
    total_available (reservable_rows pid prefer_fifo (batches db)) in
  0 ≤ reservable_stock ≤ get_available_stock pid db ∧
  ((∀ id b, batches db !! id = Some b → reserved_quantity b = 0) →
   reservable_stock = get_available_stock pid db) ∧
  (∀ quantity,
     get_available_stock pid db < quantity →
     reserve_stock pid quantity prefer_fifo db
     = (Raised (ValueError quantity reservable_stock), db)) ∧
  (∀ quantity reservations db',
     reserve_stock pid quantity prefer_fifo db = (Returned reservations, db') →
     total_quantity_of reservations ≤ get_available_stock pid db).
Proof.
  intros Hnn reservable_stock.
  assert (0 ≤ reservable_stock) as Hpos
    by apply total_available_nonneg, reservable_rows_positive.
  assert (reservable_stock ≤ get_available_stock pid db) as Hle.
  { unfold reservable_stock. rewrite total_available_reservable_rows.
    apply total_available_le_stock, Forall_forall.
    intros [id b] Hrow%elem_of_table_rows. by eapply Hnn. }
  split_and!; [done..| | |].
  - intros Hfree. unfold reservable_stock.
    rewrite total_available_reservable_rows.
    apply total_available_eq_stock, Forall_forall.
    intros [id b] Hrow%elem_of_table_rows. by eapply Hfree.
  - intros quantity Hq. rewrite reserve_stock_plan.
    rewrite greedy_plan_total; [|apply reservable_rows_positive|lia].
    fold reservable_stock. rewrite (proj2 (Z.ltb_lt _ _)) by lia.
    do 3 f_equal. lia.
  - intros quantity reservations db' (-> & _ & _)%reserve_stock_returned.
    destruct (Z.le_gt_cases quantity 0).
    + rewrite greedy_plan_nonpos by done. simpl.
      apply get_available_stock_nonneg.
    + rewrite greedy_plan_total; [|apply reservable_rows_positive|lia].
      fold reservable_stock. lia.
Qed.

Lemma available_stock_bounds_reservation_witness :
  reserved_nonneg reserved_session ∧
  0 ≤ total_available (reservable_rows 1 true (batches reserved_session))
    ≤ get_available_stock 1 reserved_session.
Proof.
  assert (reserved_nonneg reserved_session) as Hnn.
  { intros id b Hb. apply (bool_decide_unpack _).
    revert id b Hb. apply (bool_decide_unpack _). by vm_compute. }
  split; [exact Hnn|].
  apply (available_stock_bounds_reservation 1 true reserved_session Hnn).
Defined.

(** ** What the alert list contains *)

Lemma List_filter_sublist {A : Type} (f : A → bool) (l : list A) :
  List.filter f l `sublist_of` l.
Proof.
  induction l as [|x l IH]; simpl; [done|].
  destruct (f x); [by apply sublist_skip|by apply sublist_cons].
Qed.

Lemma elem_of_List_filter {A : Type} (f : A → bool) (l : list A) x :
  x ∈ List.filter f l ↔ x ∈ l ∧ f x = true.
Proof. rewrite !list_elem_of_In. apply filter_In. Qed.

Lemma make_alert_batch_id settings today (rows : list (Z * InventoryBatch * Product)) :
  a_batch_id <$> (make_alert settings today <$> rows) = rows.*1.*1.
Proof.
  induction rows as [|[[id b] p] rows IH]; [done|].
  rewrite !fmap_cons. by rewrite IH.
Qed.

Lemma elem_of_get_expiry_alerts settings today levels mq ie db a :
  a ∈ get_expiry_alerts settings today levels mq ie db ↔
  ∃ id b p,
    batches db !! id = Some b ∧ products db !! product_id b = Some p ∧
    alert_condition today mq ie (id, b, p) ∧
    level_selected levels (alert_level a) = true ∧
    a = make_alert settings today (id, b, p).
Proof.
  unfold get_expiry_alerts, collect_alerts.
  rewrite elem_of_stable_sort, elem_of_List_filter, list_elem_of_fmap.
  setoid_rewrite list_elem_of_filter. split.
  - intros [([[id b] p] & -> & Hcond & Hrow%elem_of_joined_rows) Hlevel].
    destruct Hrow. by exists id, b, p.
  - intros (id & b & p & Hb & Hp & Hcond & Hlevel & ->). split; [|done].
    exists (id, b, p). split; [done|]. split; [done|].
    by apply elem_of_joined_rows.
Qed.

Lemma NoDup_get_expiry_alerts settings today levels mq ie db :
  NoDup (a_batch_id <$> get_expiry_alerts settings today levels mq ie db).
Proof.
  unfold get_expiry_alerts. rewrite stable_sort_Permutation.
  unfold collect_alerts.
  eapply sublist_NoDup; [apply (NoDup_joined_rows db)|].
  etrans; [apply fmap_sublist, List_filter_sublist|].
  rewrite make_alert_batch_id. do 2 apply fmap_sublist. apply sublist_filter.
Qed.

(** X5: [get_expiry_alerts] returns one alert for each batch that is
    active, has at least [min_quantity] units, belongs to an active product,
    has not expired unless [include_expired] is set, and whose level passes
    the level filter, and nothing else; no batch appears twice, and the
    derived fields of every alert agree with each other. *)
Theorem expiry_alerts_content settings today alert_levels min_quantity
  include_expired db :
  let alerts :=
    get_expiry_alerts settings today alert_levels min_quantity include_expired db in
  (∀ a, a ∈ alerts ↔
     ∃ id b p,
       batches db !! id = Some b ∧ products db !! product_id b = Some p ∧
       is_active b = true ∧ min_quantity ≤ current_quantity b ∧
       product_is_active p = true ∧
       (include_expired = true ∨ today ≤ expiry_date b) ∧
       level_selected alert_levels
         (_calculate_alert_level settings (expiry_date b - today)) = true ∧
       a = make_alert settings today (id, b, p)) ∧
  NoDup (a_batch_id <$> alerts) ∧
  (∀ a, a ∈ alerts →
     min_quantity ≤ a_current_quantity a ∧
     days_until_expiry a = a_expiry_date a - today ∧
     (include_expired = false → 0 ≤ days_until_expiry a) ∧
     alert_level a = _calculate_alert_level settings (days_until_expiry a) ∧
     recommended_action a
     = _get_recommended_action (days_until_expiry a) (a_current_quantity a)
         (alert_level a)).
Proof.
  intros alerts. split_and!.
  - intros a. unfold alerts. rewrite elem_of_get_expiry_alerts. split.
    + intros (id & b & p & Hb & Hp & (? & ? & ? & ?) & Hlevel & ->).
      exists id, b, p. by split_and!.
    + intros (id & b & p & Hb & Hp & ? & ? & ? & ? & Hlevel & ->).
      exists id, b, p. by split_and!.
  - apply NoDup_get_expiry_alerts.
  - intros a (id & b & p & Hb & Hp & (? & ? & ? & Hexp) & Hlevel & ->)
      %elem_of_get_expiry_alerts.
    simpl in *. split_and!; [done..| |done|done].
    intros ->. destruct Hexp; [done|lia].
Qed.

(** ** Marking a batch expired *)

(** X6: [mark_batch_expired] succeeds exactly when the batch exists and has
    a positive current quantity; when it fails it changes nothing; and a
    second call on the same batch always fails and changes nothing. *)
Theorem mark_batch_expired_once batch_id user_id user_id' db :
  let result := mark_batch_expired batch_id user_id db in
  (result.1 = true ↔
   ∃ b, batches db !! batch_id = Some b ∧ 0 < current_quantity b) ∧
  (result.1 = false → result.2 = db) ∧
  mark_batch_expired batch_id user_id' result.2 = (false, result.2).
Proof.
  unfold mark_batch_expired.
  destruct (batches db !! batch_id) as [batch|] eqn:Hbatch.
  - destruct (Z.leb_spec (current_quantity batch) 0) as [Hle|Hlt]; simpl.
    + rewrite Hbatch, (proj2 (Z.leb_le _ _) Hle). split_and!; [|done..].
      split; [done|]. intros (b & [= <-] & ?). lia.
    + rewrite lookup_alter_eq, Hbatch. simpl. split_and!; [|done..].
      split; [by exists batch|done].
  - simpl. rewrite Hbatch. split_and!; [|done..].
    split; [done|]. by intros (b & ? & _).
Qed.

(** X7: once [mark_batch_expired] has succeeded on a batch whose reserved
    quantity is not negative, the batch is flagged expired with no stock, no
    query of [reserve_stock] selects it, no reservation names it, and it
    raises no alert for a minimum quantity of one or more; every other batch
    is as before. *)
Theorem marked_batch_leaves_circulation batch_id user_id db db' :
  reserved_nonneg db →
  mark_batch_expired batch_id user_id db = (true, db') →
  (∃ b, batches db !! batch_id = Some b ∧
        batches db' !! batch_id
        = Some (set_current_quantity 0 (set_is_expired true b))) ∧
  (∀ id, id ≠ batch_id → batches db' !! id = batches db !! id) ∧
  (∀ pid prefer_fifo,
     batch_id ∉ reservable_batches pid prefer_fifo (batches db')) ∧
  (∀ pid quantity prefer_fifo reservations db'',
     reserve_stock pid quantity prefer_fifo db' = (Returned reservations, db'') →
     batch_id ∉ r_batch_id <$> reservations) ∧
  (∀ settings today alert_levels min_quantity include_expired,
     1 ≤ min_quantity →
     batch_id ∉ a_batch_id <$>
       get_expiry_alerts settings today alert_levels min_quantity
         include_expired db').
Proof.
  intros Hnn. unfold mark_batch_expired.
  destruct (batches db !! batch_id) as [batch|] eqn:Hbatch; [|done].
  destruct (current_quantity batch <=? 0); [done|].
  simpl. intros [= <-].
  assert (batches (with_batches
            (alter (λ b, set_current_quantity 0 (set_is_expired true b))
               batch_id (batches db)) db) !! batch_id
          = Some (set_current_quantity 0 (set_is_expired true batch))) as Hnew.
  { simpl. by rewrite lookup_alter_eq, Hbatch. }
  assert (∀ pid fifo,
            batch_id ∉ reservable_batches pid fifo
              (alter (λ b, set_current_quantity 0 (set_is_expired true b))
                 batch_id (batches db))) as Hout.
  { intros pid fifo Hin. unfold reservable_batches in Hin.
    apply list_elem_of_fmap in Hin as ([id b] & -> & Hrow).
    apply elem_of_reservable_rows in Hrow as [Hb (_ & _ & Hres)].
    simpl in *. rewrite Hnew in Hb. injection Hb as <-. simpl in Hres.
    pose proof (Hnn _ _ Hbatch). lia. }
  split_and!.
  - by exists batch.
  - intros id Hid. simpl. by rewrite lookup_alter_ne.
  - done.
  - intros pid quantity fifo reservations db'' (-> & _)%reserve_stock_returned Hin.
    apply (Hout pid fifo). simpl in Hin. unfold reservable_batches.
    eapply elem_of_sublist; [exact Hin|apply greedy_plan_ids].
  - intros settings today levels mq ie Hmq Hin.
    apply list_elem_of_fmap in Hin as (a & Hid & Ha).
    apply elem_of_get_expiry_alerts
      in Ha as (id & b & p & Hb & _ & (_ & Hq & _) & _ & ->).
    simpl in Hid. subst id. simpl in Hb, Hq. rewrite lookup_alter_eq, Hbatch in Hb.
    injection Hb as <-. simpl in Hq. lia.
Qed.

Lemma marked_batch_leaves_circulation_witness :
  reserved_nonneg fixture_session ∧
  1 ∉ reservable_batches 1 true
        (batches (mark_batch_expired 1 7 fixture_session).2).
Proof.
  assert (reserved_nonneg fixture_session) as Hnn.
  { intros id b Hb. apply (bool_decide_unpack _).
    revert id b Hb. apply (bool_decide_unpack _). by vm_compute. }
  split; [exact Hnn|].
  eapply (marked_batch_leaves_circulation 1 7 fixture_session _ Hnn).
  by vm_compute.
Defined.

(** ** Filtering a stably sorted list *)

Section filter_sorted.
Context {A : Type} (before : A → A → bool).
Hypothesis before_total : ∀ x y, before x y = false → before y x = true.
Hypothesis before_trans :
  ∀ x y z, before x y = true → before y z = true → before x z = true.

Lemma insert_sorted_first (x : A) (l : list A) :
  Forall (λ y, before x y = true) l → insert_sorted before x l = x :: l.
Proof. destruct 1 as [|y l Hy _]; simpl; [done|]. by rewrite Hy. Qed.

Lemma stable_sort_StronglySorted (l : list A) :
  StronglySorted (λ a b, before a b = true) (stable_sort before l).
Proof.
  apply Sorted_StronglySorted.
  - intros x y z. apply before_trans.
  - by apply stable_sort_Sorted.
Qed.

Lemma List_filter_insert_sorted (keep : A → bool) (x : A) (l : list A) :
  StronglySorted (λ a b, before a b = true) l →
  List.filter keep (insert_sorted before x l)
  = if keep x then insert_sorted before x (List.filter keep l)
    else List.filter keep l.
Proof.
  induction 1 as [|y l Hl IH Hy]; simpl.
  { by destruct (keep x). }
  destruct (before x y) eqn:Hxy; simpl.
  - destruct (keep x) eqn:Hx, (keep y) eqn:Hky; simpl; rewrite ?Hxy; try done.
    symmetry. apply insert_sorted_first, Forall_forall.
    intros z [Hz _]%elem_of_List_filter.
    rewrite Forall_forall in Hy. eauto.
  - rewrite IH. destruct (keep x), (keep y); simpl; by rewrite ?Hxy.
Qed.

(** Filtering after the sort is sorting after the filter. *)
Lemma List_filter_stable_sort (keep : A → bool) (l : list A) :
  List.filter keep (stable_sort before l)
  = stable_sort before (List.filter keep l).
Proof.
  induction l as [|x l IH]; simpl; [done|].
  rewrite List_filter_insert_sorted by apply stable_sort_StronglySorted.
  rewrite IH. by destruct (keep x).
Qed.

End filter_sorted.

Lemma score_order_trans x y z :
  score_order x y = true → score_order y z = true → score_order x z = true.
Proof.
  unfold score_order. rewrite !Qle_bool_iff. intros Hxy Hyz.
  by apply Qle_trans with (priority_score y).
Qed.

Lemma List_filter_true {A : Type} (l : list A) : List.filter (λ _, true) l = l.
Proof. induction l as [|x l IH]; simpl; [done|]. by rewrite IH. Qed.

Lemma List_filter_List_filter {A : Type} (f g : A → bool) (l : list A) :
  List.filter f (List.filter g l) = List.filter (λ x, g x && f x) l.
Proof.
  induction l as [|x l IH]; simpl; [done|].
  destruct (g x); simpl; [destruct (f x)|]; by rewrite IH.
Qed.

Lemma get_expiry_alerts_levels settings today levels min_quantity include_expired db :
  get_expiry_alerts settings today (Some levels) min_quantity include_expired db
  = List.filter (λ a, level_selected (Some levels) (alert_level a))
      (get_expiry_alerts settings today None min_quantity include_expired db).
Proof.
  unfold get_expiry_alerts.
  rewrite List_filter_stable_sort
    by (apply score_order_total || apply score_order_trans).
  f_equal. unfold collect_alerts.
  by rewrite List_filter_List_filter.
Qed.

(** X8: the level filter only selects from the ranking. Asking for a list
    of levels returns the alerts of the unfiltered call that have one of these
    levels, in the same order; an empty list of levels filters nothing. *)
Theorem expiry_alerts_level_filter settings today min_quantity include_expired db :
  let ranking :=
    get_expiry_alerts settings today None min_quantity include_expired db in
  get_expiry_alerts settings today (Some []) min_quantity include_expired db
  = ranking ∧
  ∀ levels,
    get_expiry_alerts settings today (Some levels) min_quantity include_expired db
    = List.filter (λ a, level_selected (Some levels) (alert_level a)) ranking.
Proof.
  intros ranking. split; [|intros; apply get_expiry_alerts_levels].
  rewrite get_expiry_alerts_levels. apply List_filter_true.
Qed.

(** ** Summary and alerts agree *)

Lemma length_List_filter_fmap {A B : Type} (f : B → bool) (g : A → B)
  (P C : A → Prop) `{!∀ x, Decision (P x)} (l : list A) :
  (∀ x, C x → (f (g x) = true ↔ P x)) → Forall C l →
  length (List.filter f (g <$> l)) = length (filter P l).
Proof.
  intros Hf. induction 1 as [|x l Hx _ IH]; [done|].
  rewrite fmap_cons, filter_cons. simpl.
  destruct (decide (P x)) as [HP|HP].
  - rewrite (proj2 (Hf x Hx) HP). simpl. by rewrite IH.
  - destruct (f (g x)) eqn:Hfx; [by apply Hf in Hfx|done].
Qed.

Lemma length_filter_split {A : Type} (P Q R : A → Prop)
  `{!∀ x, Decision (P x)} `{!∀ x, Decision (Q x)} `{!∀ x, Decision (R x)}
  (l : list A) :
  (∀ x, R x ↔ P x ∨ Q x) → (∀ x, P x → Q x → False) →
  length (filter R l) = (length (filter P l) + length (filter Q l))%nat.
Proof.
  intros HR Hdisj. induction l as [|x l IH]; [done|].
  rewrite !filter_cons.
  destruct (decide (P x)) as [HP|HP], (decide (Q x)) as [HQ|HQ];
    [by destruct (Hdisj x)|..];
    (destruct (decide (R x)) as [Hr|Hr];
     [|try (exfalso; apply Hr, HR; tauto)]); simpl; rewrite ?IH; try lia.
  apply HR in Hr. tauto.
Qed.

(** Counting alerts of the unfiltered call with one unit or more, expired
    batches left out, is counting rows of the join. *)
Lemma length_filter_get_expiry_alerts settings today db (f : ExpiryAlert → bool)
  (P : Z * InventoryBatch * Product → Prop) `{!∀ x, Decision (P x)} :
  (∀ row, alert_condition today 1 false row →
          (f (make_alert settings today row) = true ↔ P row)) →
  length (List.filter f (get_expiry_alerts settings today None 1 false db))
  = length (filter (λ row, P row ∧ alert_condition today 1 false row)
              (joined_rows db)).
Proof.
  intros Hf. unfold get_expiry_alerts.
  rewrite List_filter_stable_sort
    by (apply score_order_total || apply score_order_trans).
  rewrite (Permutation_length (stable_sort_Permutation _ _)).
  unfold collect_alerts. rewrite List_filter_List_filter. simpl.
  rewrite <-list_filter_filter.
  apply (length_List_filter_fmap _ _ _ (alert_condition today 1 false));
    [done|].
  apply Forall_forall. by intros row [? _]%list_elem_of_filter.
Qed.

Lemma alert_level_critical settings days :
  _calculate_alert_level settings days = CRITICAL ↔
  days ≤ expiry_alert_1_week settings.
Proof.
  unfold _calculate_alert_level.
  repeat match goal with |- context [?a <=? ?b] => destruct (Z.leb_spec a b) end;
    split; intros; try done; lia.
Qed.

(** X9: the summary and the alert list count the same batches. With
    [alerts] the unfiltered alert list for one unit or more without expired
    batches: the summary bucket of a level holds as many batches as there are
    alerts within that level's day threshold; the CRITICAL bucket holds as
    many as the CRITICAL-only alert list has entries; and [total_batches],
    which includes expired stock, is the expired bucket plus the number of
    alerts. *)
Theorem summary_counts_match_alerts settings today db :
  let summary := get_expiry_summary settings today db in
  let alerts := get_expiry_alerts settings today None 1 false db in
  (∀ level max_days,
     level_max_days settings level = Some max_days →
     bucket_batches <$> expiry_breakdown summary !! level_value level
     = Some (Z.of_nat (length (List.filter
                (λ a, days_until_expiry a <=? max_days) alerts)))) ∧
  bucket_batches <$> expiry_breakdown summary !! "critical"
  = Some (Z.of_nat (length
            (get_expiry_alerts settings today (Some [CRITICAL]) 1 false db))) ∧
  total_batches summary
  = bucket_batches (expired summary) + Z.of_nat (length alerts).
Proof.
  intros summary alerts.
  assert (∀ d,
    filter (λ row : Z * InventoryBatch * Product,
              expiry_date row.1.2 - today ≤ d ∧ alert_condition today 1 false row)
      (joined_rows db)
    = filter (in_window today d) (joined_rows db)) as Hrows.
  { intros d. apply list_filter_iff. intros row.
    unfold alert_condition, in_window, in_stock. split.
    - intros (? & ? & ? & ? & [|]); [done|]. split_and!; [done|lia|done|lia..].
    - intros ((? & ? & ?) & ? & ?). split_and!; [lia|done|lia|done|by right]. }
  assert (∀ d, length (List.filter (λ a, days_until_expiry a <=? d) alerts)
               = length (filter (in_window today d) (joined_rows db))) as Hwin.
  { intros d. unfold alerts.
    rewrite (length_filter_get_expiry_alerts _ _ _ _
               (λ row, expiry_date row.1.2 - today ≤ d)).
    - by rewrite Hrows.
    - intros [[id b] p] _. simpl. apply Z.leb_le. }
  split_and!.
  - intros level d Hd. destruct level; simplify_eq/=; by rewrite Hwin.
  - rewrite get_expiry_alerts_levels.
    rewrite (length_filter_get_expiry_alerts _ _ _ _
               (λ row, expiry_date row.1.2 - today
                       ≤ expiry_alert_1_week settings)).
    + by rewrite Hrows.
    + intros [[id b] p] _. simpl.
      rewrite bool_decide_eq_true, list_elem_of_singleton.
      apply alert_level_critical.
  - unfold alerts. rewrite <-(List_filter_true (get_expiry_alerts _ _ _ _ _ _)).
    rewrite (length_filter_get_expiry_alerts _ _ _ _ (λ _, True)) by done.
    simpl. rewrite <-Nat2Z.inj_add. f_equal.
    apply length_filter_split.
    + intros row. unfold already_expired, alert_condition, in_stock. split.
      * intros (? & ? & ?).
        destruct (Z.lt_ge_cases (expiry_date row.1.2) today);
          [by left|right].
        split_and!; [done..|lia|done|right; lia].
      * intros [[]|(_ & ? & ? & ? & _)]; [done|]. split_and!; [done|lia|done].
    + intros row [_ ?] (_ & _ & _ & _ & [|]); [done|lia].
Qed.

(** ** Monotonicity of the classification and of the score *)

(** X10: whatever the thresholds are, a batch that expires later never
    gets a more severe level than one that expires sooner. *)
Theorem alert_level_monotone settings days1 days2 :
  days1 ≤ days2 →
  level_rank (_calculate_alert_level settings days1)
  ≤ level_rank (_calculate_alert_level settings days2).
Proof.
  intros Hd. unfold _calculate_alert_level.
  repeat match goal with |- context [?a <=? ?b] => destruct (Z.leb_spec a b) end;
    simpl; lia.
Qed.

Lemma alert_level_monotone_witness :
  3 ≤ 45 ∧
  level_rank (_calculate_alert_level default_settings 3)
  ≤ level_rank (_calculate_alert_level default_settings 45).
Proof. split; [lia|]. apply (alert_level_monotone default_settings 3 45). lia. Defined.

Lemma round_half_even_floor (x : Q) :
  Qfloor x ≤ round_half_even x ≤ Qfloor x + 1.
Proof.
  unfold round_half_even.
  destruct (_ ?= _)%Q; [destruct (Z.even _)|..]; lia.
Qed.

Lemma round_half_even_mono (x y : Q) :
  (x <= y)%Q → round_half_even x ≤ round_half_even y.
Proof.
  intros Hxy. pose proof (Qfloor_resp_le _ _ Hxy) as Hf.
  destruct (Z.eq_dec (Qfloor x) (Qfloor y)) as [Heq|Hne].
  - unfold round_half_even. rewrite <-Heq.
    destruct (x - inject_Z (Qfloor x) ?= 1 # 2)%Q eqn:Hx,
             (y - inject_Z (Qfloor x) ?= 1 # 2)%Q eqn:Hy;
      try (destruct (Z.even _); lia); try lia.
    + apply Qeq_alt in Hx. apply Qlt_alt in Hy. lra.
    + apply Qgt_alt in Hx. apply Qeq_alt in Hy. lra.
    + apply Qgt_alt in Hx. apply Qlt_alt in Hy. lra.
  - pose proof (round_half_even_floor x). pose proof (round_half_even_floor y).
    lia.
Qed.

Lemma round_mono (x y : Q) (ndigits : nat) :
  (x <= y)%Q → (round x ndigits <= round y ndigits)%Q.
Proof.
  intros Hxy. unfold round.
  assert (0 < inject_Z (10 ^ Z.of_nat ndigits))%Q as Hp.
  { change 0%Q with (inject_Z 0). rewrite <-Zlt_Qlt. lia. }
  apply Qmult_le_compat_r; [|by apply Qlt_le_weak, Qinv_lt_0_compat].
  rewrite <-Zle_Qle. apply round_half_even_mono.
  by apply Qmult_le_compat_r; [|apply Qlt_le_weak].
Qed.

(** X11: the priority score never rises when the expiry date moves away,
    never falls when the quantity grows (for a unit price that is not
    negative), and the score of a controlled substance is never below the
    score of the same stock uncontrolled (for a quantity and a price that are
    not negative). *)
Theorem priority_score_monotone :
  (∀ days1 days2 quantity unit_value is_controlled,
     days1 ≤ days2 →
     (_calculate_priority_score days2 quantity unit_value is_controlled
      <= _calculate_priority_score days1 quantity unit_value is_controlled)%Q) ∧
  (∀ days quantity1 quantity2 unit_value is_controlled,
     quantity1 ≤ quantity2 → (0 <= unit_value)%Q →
     (_calculate_priority_score days quantity1 unit_value is_controlled
      <= _calculate_priority_score days quantity2 unit_value is_controlled)%Q) ∧
  (∀ days quantity unit_value,
     0 ≤ quantity → (0 <= unit_value)%Q →
     (_calculate_priority_score days quantity unit_value false
      <= _calculate_priority_score days quantity unit_value true)%Q).
Proof.
  split_and!.
  - intros d1 d2 q p c Hd. unfold _calculate_priority_score. apply round_mono.
    assert (Z.max 0 (365 - d2) ≤ Z.max 0 (365 - d1)) as Hu by lia.
    rewrite Zle_Qle in Hu. unfold Qdiv. change (/ 365)%Q with (1 # 365)%Q.
    set (u1 := inject_Z (Z.max 0 (365 - d1))) in *.
    set (u2 := inject_Z (Z.max 0 (365 - d2))) in *.
    set (v := Qmin _ 1). set (w := Qmin _ 1).
    destruct c; lra.
  - intros d q1 q2 p c Hq Hp. unfold _calculate_priority_score. apply round_mono.
    rewrite Zle_Qle in Hq.
    assert (Qmin (inject_Z q1 * p / 1000) 1 <= Qmin (inject_Z q2 * p / 1000) 1)%Q
      as Hv.
    { apply Q.min_le_compat_r. unfold Qdiv.
      apply Qmult_le_compat_r; [|done]. by apply Qmult_le_compat_r. }
    assert (Qmin (inject_Z q1 / 100) 1 <= Qmin (inject_Z q2 / 100) 1)%Q as Hw.
    { apply Q.min_le_compat_r. unfold Qdiv. by apply Qmult_le_compat_r. }
    set (u := (inject_Z _ / 365)%Q).
    set (v1 := Qmin (inject_Z q1 * p / 1000) 1) in *.
    set (v2 := Qmin (inject_Z q2 * p / 1000) 1) in *.
    set (w1 := Qmin (inject_Z q1 / 100) 1) in *.
    set (w2 := Qmin (inject_Z q2 / 100) 1) in *.
    destruct c; lra.
  - intros d q p Hq Hp. unfold _calculate_priority_score. apply round_mono.
    assert (0 <= inject_Z q)%Q as Hq' by (by rewrite Zle_Qle in Hq).
    assert (0 <= inject_Z (Z.max 0 (365 - d)) / 365)%Q as Hu.
    { unfold Qdiv. change (/ 365)%Q with (1 # 365)%Q.
      assert (0 ≤ Z.max 0 (365 - d)) as H by lia. rewrite Zle_Qle in H.
      change (inject_Z 0) with 0%Q in H. set (u := inject_Z _) in *. lra. }
    assert (0 <= Qmin (inject_Z q * p / 1000) 1)%Q as Hv.
    { apply Q.min_glb; [|done]. pose proof (Qmult_le_0_compat _ _ Hq' Hp).
      unfold Qdiv. change (/ 1000)%Q with (1 # 1000)%Q. lra. }
    assert (0 <= Qmin (inject_Z q / 100) 1)%Q as Hw.
    { apply Q.min_glb; [|done].
      unfold Qdiv. change (/ 100)%Q with (1 # 100)%Q. lra. }
    set (u := (inject_Z _ / 365)%Q) in *.
    set (v := Qmin (inject_Z q * p / 1000) 1) in *.
    set (w := Qmin (inject_Z q / 100) 1) in *.
    lra.
Qed.

(** ** Available stock across writes *)

Lemma get_available_stock_alter_same (f : InventoryBatch → InventoryBatch)
  pid id db :
  (∀ b, counted_stock pid (f b) = counted_stock pid b) →
  get_available_stock pid (with_batches (alter f id (batches db)) db)
  = get_available_stock pid db.
Proof.
  intros Hf. destruct (batches db !! id) as [b|] eqn:Hb.
  - rewrite (get_available_stock_alter _ _ _ b) by done. rewrite Hf. lia.
  - rewrite alter_id by congruence. by rewrite with_batches_id.
Qed.

Lemma get_available_stock_apply_plan pid plan db :
  get_available_stock pid (with_batches (apply_plan plan (batches db)) db)
  = get_available_stock pid db.
Proof.
  revert db. induction plan as [|r plan IH]; intros db.
  { unfold apply_plan. simpl. by rewrite with_batches_id. }
  change (apply_plan (r :: plan) (batches db)) with
    (apply_plan plan (batches (with_batches
       (alter (λ b, set_reserved_quantity
                 (reserved_quantity b + r_quantity r) b) (r_batch_id r)
          (batches db)) db))).
  rewrite <-(with_batches_with_batches _
               (alter (λ b, set_reserved_quantity
                  (reserved_quantity b + r_quantity r) b) (r_batch_id r)
                  (batches db)) db).
  rewrite IH. by apply get_available_stock_alter_same.
Qed.

Lemma get_available_stock_release pid reservations db :
  get_available_stock pid (release_reservation reservations db)
  = get_available_stock pid db.
Proof.
  revert db. induction reservations as [|r rest IH]; intros db; [done|].
  simpl. rewrite IH. destruct (get_batch_by_id _ db); [|done].
  by apply get_available_stock_alter_same.
Qed.

Lemma get_available_stock_add_movement pid m db :
  get_available_stock pid (add_movement m db) = get_available_stock pid db.
Proof. done. Qed.

(** X12: the stock that [get_available_stock] reports ignores
    reservations, so [reserve_stock] and [release_reservation] leave it as it
    is for every product; [adjust_stock] and [mark_batch_expired] move it by
    what the written batch counted before and counts after, a batch counting
    its current quantity when that is positive and the batch is active. *)
Theorem available_stock_across_writes pid db :
  (∀ pid' quantity prefer_fifo,
     get_available_stock pid (reserve_stock pid' quantity prefer_fifo db).2
     = get_available_stock pid db) ∧
  (∀ reservations,
     get_available_stock pid (release_reservation reservations db)
     = get_available_stock pid db) ∧
  (∀ batch_id new_quantity user_id reason b,
     batches db !! batch_id = Some b →
     get_available_stock pid
       (adjust_stock batch_id new_quantity user_id reason db).2
     = get_available_stock pid db - counted_stock pid b
       + counted_stock pid (set_current_quantity new_quantity b)) ∧
  (∀ batch_id user_id b,
     batches db !! batch_id = Some b →
     get_available_stock pid (mark_batch_expired batch_id user_id db).2
     = get_available_stock pid db - counted_stock pid b).
Proof.
  split_and!.
  - intros pid' quantity fifo. rewrite reserve_stock_plan.
    destruct (0 <? _); [done|]. apply get_available_stock_apply_plan.
  - intros. apply get_available_stock_release.
  - intros batch_id new_quantity user_id reason b Hb.
    unfold adjust_stock, get_batch_by_id. rewrite Hb. simpl.
    rewrite get_available_stock_add_movement.
    by apply get_available_stock_alter.
  - intros batch_id user_id b Hb. unfold mark_batch_expired. rewrite Hb.
    destruct (Z.leb_spec (current_quantity b) 0) as [Hle|Hlt]; simpl.
    + unfold counted_stock. destruct (decide _); lia.
    + rewrite (get_available_stock_alter _ pid batch_id b (add_movement _ db))
        by done.
      rewrite get_available_stock_add_movement.
      unfold counted_stock. simpl. destruct (decide _); lia.
Qed.

(** ** Receiving a batch *)

Lemma foldr_max_ge (k : Z) (ks : list Z) (k' : Z) :
  k' ∈ k :: ks → k' ≤ foldr Z.max k ks.
Proof.
  induction ks as [|k1 ks IH]; simpl.
  - intros ->%list_elem_of_singleton. lia.
  - rewrite !elem_of_cons. intros [->|[->|Hin]].
    + assert (k ≤ foldr Z.max k ks) by (apply IH; left). lia.
    + lia.
    + assert (k' ≤ foldr Z.max k ks) by (apply IH; by right). lia.
Qed.

Lemma next_id_fresh {A : Type} (t : gmap Z A) : t !! next_id t = None.
Proof.
  destruct (t !! next_id t) as [x|] eqn:Hx; [|done].
  apply elem_of_table_rows in Hx.
  assert (next_id t ∈ (table_rows t).*1) as Hin
    by (apply list_elem_of_fmap; by exists (next_id t, x)).
  unfold next_id in Hin at 1. unfold next_id in Hx.
  destruct ((table_rows t).*1) as [|k ks] eqn:Hkeys.
  - by apply elem_of_nil in Hin.
  - apply foldr_max_ge in Hin. lia.
Qed.

(** X13: [create_inventory_batch] stores the new batch under a key that was
    not in use and leaves every existing batch as it was. The batch starts
    with its current quantity equal to its initial quantity, whatever current
    quantity the data carried, and the defaults for the columns left out; one
    PURCHASE movement of the initial quantity, booked by user 1, is added; the
    available stock of each product grows by what the new batch counts; and
    the batch invariant survives when the initial quantity covers the
    reserved quantity given. *)
Theorem create_inventory_batch_adds pid batch_data db :
  let result := create_inventory_batch pid batch_data db in
  let id := result.1.1 in
  let batch := result.1.2 in
  let db' := result.2 in
  batches db !! id = None ∧
  batches db' !! id = Some batch ∧
  (∀ id' b, batches db !! id' = Some b → batches db' !! id' = Some b) ∧
  (∀ id', id' ≠ id → batches db' !! id' = batches db !! id') ∧
  product_id batch = pid ∧
  current_quantity batch = bd_initial_quantity batch_data ∧
  initial_quantity batch = bd_initial_quantity batch_data ∧
  reserved_quantity batch = default 0 (bd_reserved_quantity batch_data) ∧
  is_active batch = default true (bd_is_active batch_data) ∧
  (∃ movement,
     movements db' = (movements db ++ [movement])%list ∧
     movement_type movement = PURCHASE ∧
     movement_quantity movement = bd_initial_quantity batch_data ∧
     movement_batch_id movement = Some id ∧
     movement_product_id movement = pid ∧
     user_id movement = 1) ∧
  (∀ pid', get_available_stock pid' db'
           = get_available_stock pid' db + counted_stock pid' batch) ∧
  (store_ok db →
   0 ≤ default 0 (bd_reserved_quantity batch_data)
     ≤ bd_initial_quantity batch_data →
   store_ok db').
Proof.
  intros result id batch db'.
  pose proof (next_id_fresh (batches db)) as Hfresh.
  assert (id = next_id (batches db)) as Hid by done.
  split_and!; try done.
  - unfold db'. simpl. by rewrite lookup_insert_eq.
  - intros id' b Hb. unfold db'. simpl. rewrite lookup_insert_ne; [done|].
    intros Heq. rewrite Heq in Hfresh. congruence.
  - intros id' Hne. unfold db'. simpl. by rewrite lookup_insert_ne.
  - by eexists.
  - intros pid'. unfold db', get_available_stock. simpl.
    rewrite (stock_of_Permutation _ _ _
               (table_rows_insert (batches db) _ batch Hfresh)).
    rewrite stock_of_cons. simpl. lia.
  - intros Hok Hres id' b'. unfold db'. simpl. rewrite lookup_insert.
    destruct (decide (next_id (batches db) = id')) as [<-|]; [|by apply Hok].
    intros [= <-]. done.
Qed.

(** ** The batches of a product *)

Lemma filter_bool_decide {A : Type} (P : A → Prop) `{!∀ x, Decision (P x)}
  (l : list A) :
  filter P l = List.filter (λ x, bool_decide (P x)) l.
Proof.
  induction l as [|x l IH]; [done|].
  rewrite filter_cons. simpl. rewrite IH.
  destruct (decide (P x)) as [HP|HP].
  - by rewrite bool_decide_eq_true_2.
  - by rewrite bool_decide_eq_false_2.
Qed.

Lemma expiry_order_trans fifo x y z :
  expiry_order fifo x y = true → expiry_order fifo y z = true →
  expiry_order fifo x z = true.
Proof. unfold expiry_order. destruct fifo; lia. Qed.

Lemma filter_stable_sort_expiry (P : Z * InventoryBatch → Prop)
  `{!∀ x, Decision (P x)} (l : list (Z * InventoryBatch)) :
  filter P (stable_sort (expiry_order true) l)
  = stable_sort (expiry_order true) (filter P l).
Proof.
  rewrite !filter_bool_decide. apply List_filter_stable_sort.
  - apply expiry_order_total.
  - apply expiry_order_trans.
Qed.

(** X14: [get_product_batches] returns exactly the batches of the product
    that pass the two optional conditions, each once, in ascending order of
    expiry date; and the batches that [reserve_stock] walks through under
    FIFO are the active batches it returns, restricted to those with
    unreserved stock, in the same order. *)
Theorem product_batches_listing pid active_only available_only db :
  let rows := get_product_batches pid active_only available_only db in
  (∀ id b, (id, b) ∈ rows ↔
     batches db !! id = Some b ∧ product_id b = pid ∧
     (active_only = true → is_active b = true) ∧
     (available_only = true → 0 < current_quantity b)) ∧
  NoDup rows.*1 ∧
  Sorted (λ x y, expiry_date x.2 ≤ expiry_date y.2) rows ∧
  reservable_rows pid true (batches db)
  = filter (λ row, reserved_quantity row.2 < current_quantity row.2)
      (get_product_batches pid true false db).
Proof.
  intros rows. split_and!.
  - intros id b. unfold rows, get_product_batches.
    rewrite elem_of_stable_sort, list_elem_of_filter, elem_of_table_rows.
    unfold product_batch_condition. simpl.
    destruct active_only, available_only; intuition congruence.
  - unfold rows, get_product_batches. rewrite stable_sort_Permutation.
    eapply sublist_NoDup; [apply (NoDup_table_rows (batches db))|].
    apply fmap_sublist, sublist_filter.
  - eapply Sorted_weaken; [|apply stable_sort_Sorted, expiry_order_total].
    intros x y. unfold expiry_order. lia.
  - unfold get_product_batches, reservable_rows.
    rewrite filter_stable_sort_expiry, list_filter_filter. f_equal.
    apply list_filter_iff. intros row.
    unfold reservable, product_batch_condition. intuition congruence.
Qed.

(** ** The cart *)

Lemma count_foldl (a : Z) (l : list CartItem) :
  foldl (λ acc item, acc + ci_quantity item) a l
  = a + foldl (λ acc item, acc + ci_quantity item) 0 l.
Proof.
  revert a. induction l as [|x l IH]; intros a; simpl; [lia|].
  rewrite (IH (a + _)), (IH (0 + _)). lia.
Qed.

Lemma item_count_cons x l cart :
  item_count (with_items (x :: l) cart)
  = ci_quantity x + item_count (with_items l cart).
Proof. unfold item_count. simpl. rewrite count_foldl. lia. Qed.

Lemma find_item_None pid (l : list CartItem) :
  List.find (λ item, ci_product_id item =? pid) l = None ↔
  pid ∉ ci_product_id <$> l.
Proof.
  induction l as [|x l IH].
  - split; [intros _ []%elem_of_nil|done].
  - rewrite fmap_cons, not_elem_of_cons. simpl.
    destruct (Z.eqb_spec (ci_product_id x) pid) as [Hx|Hx].
    + split; [done|]. intros [Hne _]. by destruct Hne.
    + rewrite IH. split; [intros ?; split; [congruence|done]|by intros [_ ?]].
Qed.

Lemma find_app {A : Type} (f : A → bool) (l l' : list A) :
  List.find f (l ++ l')
  = match List.find f l with Some x => Some x | None => List.find f l' end.
Proof.
  induction l as [|x l IH]; simpl; [done|]. by destruct (f x).
Qed.

Lemma find_item_Some pid (l : list CartItem) e :
  List.find (λ item, ci_product_id item =? pid) l = Some e →
  ci_product_id e = pid ∧ e ∈ l.
Proof.
  intros [Hin Hid]%find_some. split; [lia|by apply list_elem_of_In].
Qed.

Section cart_lists.
Context (pid q : Z).

Lemma add_to_first_ids l :
  ci_product_id <$> add_to_first pid q l = ci_product_id <$> l.
Proof.
  induction l as [|x l IH]; [done|]. simpl.
  destruct (Z.eqb_spec (ci_product_id x) pid); [done|].
  by rewrite !fmap_cons, IH.
Qed.

Lemma set_first_ids l :
  ci_product_id <$> set_first pid q l = ci_product_id <$> l.
Proof.
  induction l as [|x l IH]; [done|]. simpl.
  destruct (Z.eqb_spec (ci_product_id x) pid); [done|].
  by rewrite !fmap_cons, IH.
Qed.

Lemma find_add_to_first l pid' :
  List.find (λ item, ci_product_id item =? pid') (add_to_first pid q l)
  = if decide (pid' = pid)
    then (λ e, set_ci_quantity (ci_quantity e + q) e)
           <$> List.find (λ item, ci_product_id item =? pid') l
    else List.find (λ item, ci_product_id item =? pid') l.
Proof.
  induction l as [|x l IH]; simpl; [by destruct (decide _)|].
  destruct (Z.eqb_spec (ci_product_id x) pid) as [Hx|Hx]; simpl.
  - destruct (decide (pid' = pid)) as [->|Hne].
    + by rewrite (proj2 (Z.eqb_eq _ _) Hx).
    + by destruct (Z.eqb_spec (ci_product_id x) pid'); [lia|].
  - rewrite IH. destruct (decide (pid' = pid)) as [->|Hne].
    + by rewrite (proj2 (Z.eqb_neq _ _) Hx).
    + by destruct (ci_product_id x =? pid').
Qed.

Lemma find_set_first l pid' :
  List.find (λ item, ci_product_id item =? pid') (set_first pid q l)
  = if decide (pid' = pid)
    then set_ci_quantity q <$> List.find (λ item, ci_product_id item =? pid') l
    else List.find (λ item, ci_product_id item =? pid') l.
Proof.
  induction l as [|x l IH]; simpl; [by destruct (decide _)|].
  destruct (Z.eqb_spec (ci_product_id x) pid) as [Hx|Hx]; simpl.
  - destruct (decide (pid' = pid)) as [->|Hne].
    + by rewrite (proj2 (Z.eqb_eq _ _) Hx).
    + by destruct (Z.eqb_spec (ci_product_id x) pid'); [lia|].
  - rewrite IH. destruct (decide (pid' = pid)) as [->|Hne].
    + by rewrite (proj2 (Z.eqb_neq _ _) Hx).
    + by destruct (ci_product_id x =? pid').
Qed.

Lemma count_add_to_first l e cart :
  List.find (λ item, ci_product_id item =? pid) l = Some e →
  item_count (with_items (add_to_first pid q l) cart)
  = item_count (with_items l cart) + q.
Proof.
  induction l as [|x l IH]; simpl; [done|].
  destruct (ci_product_id x =? pid); intros He.
  - rewrite !item_count_cons. simpl. lia.
  - rewrite !item_count_cons, IH by done. lia.
Qed.

Lemma count_set_first l e cart :
  List.find (λ item, ci_product_id item =? pid) l = Some e →
  item_count (with_items (set_first pid q l) cart)
  = item_count (with_items l cart) - ci_quantity e + q.
Proof.
  induction l as [|x l IH]; simpl; [done|].
  destruct (ci_product_id x =? pid); intros He.
  - injection He as <-. rewrite !item_count_cons. simpl. lia.
  - rewrite !item_count_cons, IH by done. lia.
Qed.

Lemma remove_first_spec l :
  match List.find (λ item, ci_product_id item =? pid) l with
  | None => remove_first pid l = None
  | Some e =>
      ∃ l', remove_first pid l = Some l' ∧
            (∀ cart, item_count (with_items l' cart)
                     = item_count (with_items l cart) - ci_quantity e) ∧
            ci_product_id <$> l' `sublist_of` ci_product_id <$> l ∧
            (NoDup (ci_product_id <$> l) → pid ∉ ci_product_id <$> l') ∧
            (∀ pid', pid' ≠ pid →
               List.find (λ item, ci_product_id item =? pid') l'
               = List.find (λ item, ci_product_id item =? pid') l)
  end.
Proof.
  induction l as [|x l IH]; [done|]. cbn [List.find remove_first].
  destruct (Z.eqb_spec (ci_product_id x) pid) as [Hx|Hx].
  - exists l. split_and!; [done|..].
    + intros cart. rewrite item_count_cons. lia.
    + rewrite fmap_cons. by apply sublist_cons.
    + rewrite fmap_cons, Hx. by intros [? _]%NoDup_cons.
    + intros pid' Hne. cbn [List.find].
      by destruct (Z.eqb_spec (ci_product_id x) pid'); [lia|].
  - destruct (List.find _ l) as [e|]; [|by rewrite IH].
    destruct IH as (l' & -> & Hcount & Hsub & Hnd & Hfind).
    exists (x :: l'). split_and!; [done|..].
    + intros cart. rewrite !item_count_cons, Hcount. lia.
    + rewrite !fmap_cons. by apply sublist_skip.
    + rewrite !fmap_cons. intros [_ ?]%NoDup_cons.
      rewrite not_elem_of_cons. split; [done|auto].
    + intros pid' Hne. cbn [List.find]. by rewrite Hfind.
Qed.

End cart_lists.

(** X15: [Cart.add_item] raises the item count by the quantity added; the
    item that [find_item] then returns for the product is the existing one
    with the quantities added up (its price and discount kept) or, when there
    was none, the new item; the items of other products are as before, and a
    cart with one item per product stays so. *)
Theorem cart_add_item cart_item cart :
  let pid := ci_product_id cart_item in
  let cart' := add_item cart_item cart in
  item_count cart' = item_count cart + ci_quantity cart_item ∧
  find_item pid cart'
  = Some match find_item pid cart with
         | Some existing =>
             set_ci_quantity (ci_quantity existing + ci_quantity cart_item)
               existing
         | None => cart_item
         end ∧
  (∀ pid', pid' ≠ pid → find_item pid' cart' = find_item pid' cart) ∧
  (NoDup (ci_product_id <$> items cart) →
   NoDup (ci_product_id <$> items cart')) ∧
  customer_id cart' = customer_id cart ∧
  discount_amount cart' = discount_amount cart ∧
  tax_rate cart' = tax_rate cart.
Proof.
  intros pid cart'. unfold cart', add_item, find_item. fold pid.
  destruct (List.find _ (items cart)) as [e|] eqn:Hfind; simpl.
  - split_and!; try done.
    + rewrite (count_add_to_first _ _ _ e) by done. by destruct cart.
    + rewrite find_add_to_first, Hfind. by rewrite decide_True.
    + intros pid' Hne. rewrite find_add_to_first. by rewrite decide_False.
    + by rewrite add_to_first_ids.
  - apply find_item_None in Hfind. split_and!; try done.
    + unfold item_count. simpl. rewrite foldl_app. simpl. done.
    + rewrite find_app, (proj2 (find_item_None _ _) Hfind). simpl.
      by rewrite Z.eqb_refl.
    + intros pid' Hne. rewrite find_app.
      destruct (List.find (λ item, ci_product_id item =? pid') (items cart));
        [done|].
      simpl. destruct (Z.eqb_spec (ci_product_id cart_item) pid') as [Heq|];
        [by destruct Hne|done].
    + intros Hnd. rewrite fmap_app. apply NoDup_app. split_and!; [done| |].
      * intros x Hx ->%list_elem_of_singleton. done.
      * apply NoDup_singleton.
Qed.

(** X16: [Cart.remove_item] and [Cart.update_item_quantity] return [False]
    and leave the cart alone exactly when it has no item of the product.
    Otherwise removal lowers the item count by the item's quantity, an update
    to a positive quantity sets the quantity of that item, and an update to
    zero or less is a removal. Items of other products are never touched, and
    in a cart with one item per product the removed product is gone. *)
Theorem cart_remove_and_update pid quantity cart :
  let removed := remove_item pid cart in
  let updated := update_item_quantity pid quantity cart in
  (find_item pid cart = None →
   removed = (false, cart) ∧ updated = (false, cart)) ∧
  (∀ e, find_item pid cart = Some e →
     removed.1 = true ∧ updated.1 = true ∧
     item_count removed.2 = item_count cart - ci_quantity e ∧
     (NoDup (ci_product_id <$> items cart) → find_item pid removed.2 = None) ∧
     (quantity ≤ 0 → updated = removed) ∧
     (0 < quantity →
      find_item pid updated.2 = Some (set_ci_quantity quantity e) ∧
      item_count updated.2 = item_count cart - ci_quantity e + quantity)) ∧
  (∀ pid', pid' ≠ pid →
     find_item pid' removed.2 = find_item pid' cart ∧
     find_item pid' updated.2 = find_item pid' cart) ∧
  (NoDup (ci_product_id <$> items cart) →
   NoDup (ci_product_id <$> items removed.2) ∧
   NoDup (ci_product_id <$> items updated.2)).
Proof.
  intros removed updated.
  unfold updated, removed, update_item_quantity, remove_item, find_item.
  pose proof (remove_first_spec pid (items cart)) as Hrem.
  destruct (List.find _ (items cart)) as [e|] eqn:Hfind.
  - destruct Hrem as (l' & -> & Hcount & Hsub & Hgone & Hothers).
    assert (item_count cart = item_count (with_items (items cart) cart)) as Hc
      by (by destruct cart).
    split_and!.
    + done.
    + intros e' [= <-]. simpl. split_and!; [done| |..].
      * by destruct (quantity <=? 0).
      * rewrite Hcount. lia.
      * intros Hnd. by apply find_item_None, Hgone.
      * intros Hq. by rewrite (proj2 (Z.leb_le _ _) Hq).
      * intros Hq. rewrite (proj2 (Z.leb_gt _ _) Hq). simpl.
        rewrite find_set_first, Hfind, decide_True by done.
        rewrite (count_set_first _ _ _ e) by done. split; [done|lia].
    + intros pid' Hne. simpl. split; [by apply Hothers|].
      destruct (quantity <=? 0); simpl; [by apply Hothers|].
      rewrite find_set_first. by rewrite decide_False.
    + intros Hnd. simpl. split; [by eapply sublist_NoDup|].
      destruct (quantity <=? 0); simpl; [by eapply sublist_NoDup|].
      by rewrite set_first_ids.
  - rewrite Hrem. split_and!; try done.
Qed.

Lemma subtotal_foldl (a : Q) (l : list CartItem) :
  (foldl (λ acc item, acc + line_total item) a l
   == a + foldr (λ item acc,
                   inject_Z (ci_quantity item) * ci_unit_price item + acc) 0 l
        - foldl (λ acc item, acc + ci_discount_amount item) 0 l)%Q.
Proof.
  revert a. induction l as [|x l IH]; intros a; simpl; [lra|].
  rewrite IH. unfold line_total.
  assert (∀ b, foldl (λ acc item, acc + ci_discount_amount item) b l
               == b + foldl (λ acc item, acc + ci_discount_amount item) 0 l)%Q
    as Hd.
  { clear. induction l as [|y l IH]; intros b; simpl; [lra|].
    rewrite (IH (b + _)%Q), (IH (0 + _)%Q). lra. }
  rewrite (Hd (0 + _)%Q). lra.
Qed.

Lemma quantize_half_up_zero (x : Q) : (x == 0)%Q → (quantize_half_up x == 0)%Q.
Proof.
  intros Hx. unfold quantize_half_up.
  assert (x * 100 == 0)%Q as Hn by (rewrite Hx; lra).
  assert (Qle_bool 0 (x * 100) = true) as ->
    by (apply Qle_bool_iff; rewrite Hn; lra).
  assert (Qfloor (x * 100 + (1 # 2)) = 0) as ->.
  { rewrite Hn. reflexivity. }
  reflexivity.
Qed.

(** X17: the cart total is the price of the items less every discount, of
    the items and of the cart, plus the tax; with the tax rate at zero, the
    rate of a new cart, there is no tax. A cleared cart has no items, no
    customer and no discount, and its total is zero. *)
Theorem cart_totals cart :
  (subtotal cart
   == gross_amount cart - (total_discount cart - discount_amount cart))%Q ∧
  (total cart == gross_amount cart - total_discount cart + tax_amount cart)%Q ∧
  ((tax_rate cart == 0)%Q →
   (tax_amount cart == 0)%Q ∧
   (total cart == gross_amount cart - total_discount cart)%Q) ∧
  items (clear cart) = [] ∧ customer_id (clear cart) = None ∧
  item_count (clear cart) = 0 ∧ tax_rate (clear cart) = tax_rate cart ∧
  (total (clear cart) == 0)%Q.
Proof.
  assert (subtotal cart
          == gross_amount cart - (total_discount cart - discount_amount cart))%Q
    as Hsub.
  { unfold subtotal, gross_amount, total_discount.
    rewrite subtotal_foldl. lra. }
  assert (∀ c, tax_rate c == 0 → tax_amount c == 0)%Q as Htax.
  { intros c Hrate. unfold tax_amount. apply quantize_half_up_zero.
    rewrite Hrate. unfold Qdiv. change (/ 100)%Q with (1 # 100)%Q.
    set (t := (subtotal c - discount_amount c)%Q). lra. }
  split_and!; try done.
  - unfold total. rewrite Hsub. lra.
  - intros Hrate. split; [by apply Htax|].
    unfold total. rewrite Hsub, Htax by done. lra.
  - unfold total, tax_amount, subtotal. simpl.
    rewrite quantize_half_up_zero; [lra|].
    unfold Qdiv. change (/ 100)%Q with (1 # 100)%Q. lra.
Qed.

(** ** Carts per session *)

(** X18: [update_cart_item] writes to the cart of its own session only.
    A positive quantity above the available stock raises and leaves every
    cart as it was; otherwise, and always for a quantity of zero or less,
    which is never checked against the stock, the call returns the session's
    cart, created empty when the session had none, after
    [update_item_quantity]. *)
Theorem update_cart_item_behaviour session_id pid quantity db carts :
  let result := update_cart_item session_id pid quantity db carts in
  (∀ other, other ≠ session_id → result.2 !! other = carts !! other) ∧
  (get_available_stock pid db < quantity →
   (∃ message, result.1 = PosValueError message) ∧ result.2 = carts) ∧
  (quantity ≤ 0 ∨ quantity ≤ get_available_stock pid db →
   ∃ cart,
     result.1 = PosReturned cart ∧ result.2 !! session_id = Some cart ∧
     cart = (update_item_quantity pid quantity
               (default empty_cart (carts !! session_id))).2).
Proof.
  intros result. unfold result, update_cart_item, get_cart.
  pose proof (get_available_stock_nonneg pid db) as Hstock.
  destruct (Z.ltb_spec 0 quantity) as [Hpos|Hpos],
           (Z.ltb_spec (get_available_stock pid db) quantity) as [Hlt|Hge];
    simpl.
  - split_and!; [done|by eauto|]. intros [|]; lia.
  - split_and!; [|lia|].
    + intros other Hne. destruct (carts !! session_id);
        simpl; by rewrite ?lookup_insert_ne.
    + intros _. destruct (carts !! session_id);
        simpl; eexists; by rewrite lookup_insert_eq.
  - split_and!; [|lia|].
    + intros other Hne. destruct (carts !! session_id);
        simpl; by rewrite ?lookup_insert_ne.
    + intros _. destruct (carts !! session_id);
        simpl; eexists; by rewrite lookup_insert_eq.
  - split_and!; [|lia|].
    + intros other Hne. destruct (carts !! session_id);
        simpl; by rewrite ?lookup_insert_ne.
    + intros _. destruct (carts !! session_id);
        simpl; eexists; by rewrite lookup_insert_eq.
Qed.

(** X19: [remove_from_cart] and [clear_cart] touch the cart of their own
    session only; [get_cart] gives a session without a cart an empty one and
    returns the same cart when asked again; [clear_cart] never creates a cart,
    and after it the cart of the session, if any, is empty. *)
Theorem session_carts_are_separate session_id carts :
  (∀ other pid, other ≠ session_id →
     (remove_from_cart session_id pid carts).2 !! other = carts !! other ∧
     clear_cart session_id carts !! other = carts !! other ∧
     (get_cart session_id carts).2 !! other = carts !! other) ∧
  (get_cart session_id carts).2 !! session_id
  = Some (get_cart session_id carts).1 ∧
  get_cart session_id (get_cart session_id carts).2
  = get_cart session_id carts ∧
  (carts !! session_id = None →
   (get_cart session_id carts).1 = empty_cart ∧
   clear_cart session_id carts = carts) ∧
  (∀ cart, clear_cart session_id carts !! session_id = Some cart →
           items cart = [] ∧ item_count cart = 0) ∧
  (∀ pid, (remove_from_cart session_id pid carts).2 !! session_id
          = Some (remove_item pid
                    (default empty_cart (carts !! session_id))).2).
Proof.
  unfold remove_from_cart, clear_cart, get_cart.
  destruct (carts !! session_id) as [cart|] eqn:Hcart; simpl.
  - rewrite Hcart. split_and!; try done.
    + intros other pid Hne. by rewrite !lookup_insert_ne.
    + intros cart'. rewrite lookup_insert_eq. by intros [= <-].
    + intros pid. by rewrite lookup_insert_eq.
  - split_and!; try done.
    + intros other pid Hne. by rewrite !lookup_insert_ne.
    + by rewrite lookup_insert_eq.
    + by rewrite lookup_insert_eq.
    + intros cart'. by rewrite Hcart.
    + intros pid. by rewrite lookup_insert_eq.
Qed.

(** ** The endpoint that marks a batch expired *)

(** X20: the [mark_batch_expired] endpoint answers with the success message
    exactly when the batch exists and has a positive current quantity. When
    the service reports failure, the 404 that the endpoint raises is caught by
    its own [except Exception] handler and becomes a 500 whose detail is the
    text of the 404; the endpoint never answers 404 or 400, and a failed call
    leaves the session as it was. *)
Theorem mark_batch_expired_endpoint_status (http_exception_str : Z → string → string)
  batch_id user_id db :
  let result := mark_batch_expired_endpoint http_exception_str batch_id user_id db in
  ((∃ b, batches db !! batch_id = Some b ∧ 0 < current_quantity b) →
   result.1 = inr ("Batch marked as expired successfully", batch_id) ∧
   result.2 = (mark_batch_expired batch_id user_id db).2) ∧
  (¬ (∃ b, batches db !! batch_id = Some b ∧ 0 < current_quantity b) →
   result.1
   = inl (ApiHTTPException 500
            (http_exception_str 404 "Batch not found or already processed")) ∧
   result.2 = db) ∧
  (∀ status_code detail,
     result.1 = inl (ApiHTTPException status_code detail) → status_code = 500).
Proof.
  intros result. unfold result, mark_batch_expired_endpoint,
    mark_batch_expired_try, mark_batch_expired.
  destruct (batches db !! batch_id) as [batch|] eqn:Hbatch.
  - destruct (Z.leb_spec (current_quantity batch) 0) as [Hle|Hlt]; simpl.
    + split_and!.
      * intros (b & [= <-] & ?). lia.
      * done.
      * by intros ?? [= <- _].
    + split_and!.
      * done.
      * intros Hno. destruct Hno. by exists batch.
      * done.
  - simpl. split_and!.
    + by intros (b & ? & _).
    + done.
    + by intros ?? [= <- _].
Qed.

(** ** Reserving for a whole cart *)

Lemma reserved_delta_app id l1 l2 :
  reserved_delta id (l1 ++ l2) = reserved_delta id l1 + reserved_delta id l2.
Proof.
  induction l1 as [|r l1 IH]; simpl; [done|]. destruct (bool_decide _); lia.
Qed.

Lemma reserved_delta_nonneg id lines :
  Forall (λ r, 0 ≤ r_quantity r) lines → 0 ≤ reserved_delta id lines.
Proof. induction 1; simpl; [done|]. destruct (bool_decide _); lia. Qed.

Lemma apply_plan_app l1 l2 (bs : gmap Z InventoryBatch) :
  apply_plan (l1 ++ l2) bs = apply_plan l2 (apply_plan l1 bs).
Proof. apply foldl_app. Qed.

Lemma apply_plan_lookup_delta lines (bs : gmap Z InventoryBatch) id :
  apply_plan lines bs !! id
  = (λ b, set_reserved_quantity
            (reserved_quantity b + reserved_delta id lines) b) <$> bs !! id.
Proof.
  revert bs. induction lines as [|r lines IH]; intros bs.
  { simpl. destruct (bs !! id) as [b|]; [|done]. simpl. f_equal.
    destruct b. unfold set_reserved_quantity. simpl. f_equal. lia. }
  change (apply_plan (r :: lines) bs) with
    (apply_plan lines (alter (λ b, set_reserved_quantity
                       (reserved_quantity b + r_quantity r) b) (r_batch_id r) bs)).
  rewrite IH, lookup_alter. simpl.
  destruct (decide (r_batch_id r = id)) as [Heq|Hne].
  - rewrite bool_decide_eq_true_2 by done. subst id.
    destruct (bs !! r_batch_id r) as [b|]; [|done]. simpl. f_equal.
    unfold set_reserved_quantity. simpl. f_equal. lia.
  - by rewrite bool_decide_eq_false_2.
Qed.

Lemma release_reservation_frame lines db :
  release_reservation lines db
  = with_batches (batches (release_reservation lines db)) db.
Proof.
  revert db. induction lines as [|r lines IH]; intros db; simpl.
  { by rewrite with_batches_id. }
  rewrite IH. by destruct (get_batch_by_id _ db).
Qed.

Lemma release_reservation_lookup_delta lines db id :
  Forall (λ r, 0 ≤ r_quantity r) lines →
  (∀ id b, batches db !! id = Some b →
           reserved_delta id lines ≤ reserved_quantity b) →
  batches (release_reservation lines db) !! id
  = (λ b, set_reserved_quantity
            (reserved_quantity b - reserved_delta id lines) b)
      <$> batches db !! id.
Proof.
  intros Hq. revert db. induction Hq as [|r lines Hr Hq IH]; intros db Hheld.
  { simpl. destruct (batches db !! id) as [b|]; [|done]. simpl. f_equal.
    destruct b. unfold set_reserved_quantity. simpl. f_equal. lia. }
  pose proof (reserved_delta_nonneg (r_batch_id r) lines Hq) as Hrest.
  cbn [release_reservation]. unfold get_batch_by_id.
  destruct (batches db !! r_batch_id r) as [batch|] eqn:Hbatch.
  - pose proof (Hheld _ _ Hbatch) as Hbatch_held. simpl in Hbatch_held.
    rewrite bool_decide_eq_true_2 in Hbatch_held by done.
    rewrite IH.
    + simpl. rewrite lookup_alter.
      destruct (decide (r_batch_id r = id)) as [Heq|Hne].
      * rewrite bool_decide_eq_true_2 by done. subst id. rewrite Hbatch.
        simpl. f_equal. unfold set_reserved_quantity. simpl. f_equal. lia.
      * by rewrite bool_decide_eq_false_2.
    + intros id' b'. simpl. rewrite lookup_alter.
      destruct (decide (r_batch_id r = id')) as [Heq|Hne].
      * subst id'. rewrite Hbatch. intros [= <-]. simpl. lia.
      * intros Hb'. pose proof (Hheld _ _ Hb') as H'. simpl in H'.
        by rewrite bool_decide_eq_false_2 in H'.
  - rewrite IH.
    + simpl. destruct (decide (r_batch_id r = id)) as [Heq|Hne].
      * subst id. by rewrite Hbatch.
      * by rewrite bool_decide_eq_false_2.
    + intros id' b' Hb'. pose proof (Hheld _ _ Hb') as H'. simpl in H'.
      destruct (bool_decide _); lia.
Qed.

(** Releasing positive lines that have been applied to a state without
    negative reserved quantities gives that state back. *)
Lemma release_reservation_applied lines db :
  Forall (λ r, 0 ≤ r_quantity r) lines → reserved_nonneg db →
  release_reservation lines (with_batches (apply_plan lines (batches db)) db)
  = db.
Proof.
  intros Hq Hnn. rewrite release_reservation_frame.
  rewrite with_batches_with_batches.
  etrans; [|apply (with_batches_id db)].
  f_equal. apply map_eq. intros id.
  rewrite release_reservation_lookup_delta; [|done|].
  - simpl. rewrite apply_plan_lookup_delta.
    destruct (batches db !! id) as [b|]; [|done]. simpl. f_equal.
    destruct b. unfold set_reserved_quantity. simpl. f_equal. lia.
  - intros id' b'. simpl. rewrite apply_plan_lookup_delta.
    destruct (batches db !! id') as [b|] eqn:Hb; [|done].
    intros [= <-]. simpl. pose proof (Hnn _ _ Hb). lia.
Qed.

Lemma reserve_stock_lines_nonneg pid quantity fifo db reservations db' :
  reserve_stock pid quantity fifo db = (Returned reservations, db') →
  Forall (λ r, 0 ≤ r_quantity r) reservations.
Proof.
  intros (-> & _ & _)%reserve_stock_returned. apply Forall_forall.
  intros line (b & _ & ?)%greedy_plan_batch. lia.
Qed.

Lemma reserve_stock_raised pid quantity fifo db e db' :
  reserve_stock pid quantity fifo db = (Raised e, db') → db' = db.
Proof.
  rewrite reserve_stock_plan. destruct (0 <? _); [|done]. by intros [= _ <-].
Qed.

Lemma reserve_cart_items_applied cart_items acc db0 db result db' :
  reserved_nonneg db0 →
  Forall (λ r, 0 ≤ r_quantity r) acc →
  db = with_batches (apply_plan acc (batches db0)) db0 →
  reserve_cart_items cart_items acc db = (result, db') →
  match result with
  | Raised _ => db' = db0
  | Returned reservations =>
      Forall (λ r, 0 ≤ r_quantity r) reservations ∧
      db' = with_batches (apply_plan reservations (batches db0)) db0
  end.
Proof.
  intros Hnn. revert acc db.
  induction cart_items as [|item rest IH]; intros acc db Hacc Hdb; simpl.
  { by intros [= <- <-]. }
  destruct (reserve_stock (ci_product_id item) (ci_quantity item) true db)
    as [[rs|e] db1] eqn:Hrun.
  - apply IH.
    + apply Forall_app. split; [done|by eapply reserve_stock_lines_nonneg].
    + apply reserve_stock_returned in Hrun as (_ & -> & _).
      rewrite Hdb. simpl. by rewrite apply_plan_app.
  - apply reserve_stock_raised in Hrun as ->. intros [= <- <-].
    rewrite Hdb. by apply release_reservation_applied.
Qed.

Lemma store_ok_reserved_nonneg db : store_ok db → reserved_nonneg db.
Proof. intros Hok id b Hb. by destruct (Hok id b Hb). Qed.

(** X21: the reservation phase of [process_sale] is all or nothing for the
    whole cart when no reserved quantity was negative. If the reservation of
    any item raises, the reservations of the items before it are released and
    the session is exactly the one before the sale started. If every item is
    reserved, the lines returned are the only change, each batch holding in
    addition what the lines name on it, and releasing them all restores the
    session. *)
Theorem cart_reservation_all_or_nothing cart_items db :
  reserved_nonneg db →
  let result := reserve_cart_items cart_items [] db in
  (∀ e, result.1 = Raised e → result.2 = db) ∧
  (∀ reservations,
     result.1 = Returned reservations →
     result.2 = with_batches (apply_plan reservations (batches db)) db ∧
     (∀ id, batches result.2 !! id
            = (λ b, set_reserved_quantity
                      (reserved_quantity b + reserved_delta id reservations) b)
                <$> batches db !! id) ∧
     release_reservation reservations result.2 = db).
Proof.
  intros Hnn result.
  pose proof (reserve_cart_items_applied cart_items [] db db result.1 result.2
                Hnn) as Hrun.
  destruct result as [[rs|e] db'] eqn:Hres; simpl in *.
  - destruct Hrun as [Hq ->]; [done|by rewrite with_batches_id|done|].
    split; [done|]. intros ? [= <-]. split_and!; [done|..].
    + intros id. simpl. apply apply_plan_lookup_delta.
    + by apply release_reservation_applied.
  - split; [|done]. intros ? _.
    apply Hrun; [done|by rewrite with_batches_id|done].
Qed.

Lemma cart_reservation_all_or_nothing_witness :
  reserved_nonneg fixture_session ∧
  (reserve_cart_items [sample_item 1 40; sample_item 2 5] [] fixture_session).2
  = fixture_session.
Proof.
  assert (reserved_nonneg fixture_session) as Hnn.
  { intros id b Hb. apply (bool_decide_unpack _).
    revert id b Hb. apply (bool_decide_unpack _). by vm_compute. }
  split; [exact Hnn|].
  eapply (cart_reservation_all_or_nothing [sample_item 1 40; sample_item 2 5] _ Hnn).
  by vm_compute.
Defined.

Lemma reserve_cart_items_store_ok cart_items acc db reservations db' :
  store_ok db →
  reserve_cart_items cart_items acc db = (Returned reservations, db') →
  store_ok db'.
Proof.
  revert acc db. induction cart_items as [|item rest IH]; intros acc db Hok;
    simpl.
  { by intros [= _ <-]. }
  pose proof (reserve_stock_store_ok (ci_product_id item) (ci_quantity item)
                true db Hok) as Hok1.
  destruct (reserve_stock (ci_product_id item) (ci_quantity item) true db)
    as [[rs|e] db1]; [|done].
  by apply IH.
Qed.

Lemma confirm_sale_lookup_delta reservations user_id sale_reference db id :
  batches (confirm_sale reservations user_id sale_reference db).2 !! id
  = (λ b, set_reserved_quantity
            (reserved_quantity b - reserved_delta id reservations)
            (set_current_quantity
               (current_quantity b - reserved_delta id reservations) b))
      <$> batches db !! id.
Proof.
  rewrite confirm_sale_batches. generalize (batches db). clear db.
  induction reservations as [|r lines IH]; intros bs.
  { simpl. destruct (bs !! id) as [b|]; [|done]. simpl. f_equal.
    destruct b. unfold set_reserved_quantity, set_current_quantity. simpl.
    f_equal; lia. }
  cbn [foldl]. rewrite IH, lookup_alter. simpl.
  destruct (decide (r_batch_id r = id)) as [Heq|Hne].
  - rewrite bool_decide_eq_true_2 by done. subst id.
    destruct (bs !! r_batch_id r) as [b|]; [|done]. simpl. f_equal.
    unfold set_reserved_quantity, set_current_quantity. simpl. f_equal; lia.
  - by rewrite bool_decide_eq_false_2.
Qed.

(** X22: a sale that reserves every item of the cart and then confirms the
    lines keeps the batch invariant, leaves every reserved quantity as it was
    before the sale, and lowers each batch's current quantity by exactly what
    the lines name on it, changing nothing else of the batch. *)
Theorem cart_sale_confirmed cart_items user_id sale_reference db reservations db1 :
  store_ok db →
  reserve_cart_items cart_items [] db = (Returned reservations, db1) →
  let db2 := (confirm_sale reservations user_id sale_reference db1).2 in
  store_ok db2 ∧
  (∀ id, batches db2 !! id
         = (λ b, set_current_quantity
                   (current_quantity b - reserved_delta id reservations) b)
             <$> batches db !! id) ∧
  (∀ id, 0 ≤ reserved_delta id reservations).
Proof.
  intros Hok Hrun db2.
  pose proof (reserve_cart_items_store_ok _ _ _ _ _ Hok Hrun) as Hok1.
  pose proof (reserve_cart_items_applied cart_items [] db db _ _
                (store_ok_reserved_nonneg _ Hok) (Forall_nil_2 _)
                (eq_sym (with_batches_id db)) Hrun) as [Hq Hdb1].
  assert (∀ id, batches db2 !! id
            = (λ b, set_current_quantity
                      (current_quantity b - reserved_delta id reservations) b)
                <$> batches db !! id) as Hlookup.
  { intros id. unfold db2. rewrite confirm_sale_lookup_delta, Hdb1. simpl.
    rewrite apply_plan_lookup_delta.
    destruct (batches db !! id) as [b|]; [|done]. simpl. f_equal.
    destruct b. unfold set_reserved_quantity, set_current_quantity. simpl.
    f_equal. lia. }
  split_and!; [|done|intros; by apply reserved_delta_nonneg].
  intros id b2 Hb2. rewrite Hlookup in Hb2.
  destruct (batches db !! id) as [b|] eqn:Hb; [|done].
  injection Hb2 as <-.
  assert (batches db1 !! id
          = Some (set_reserved_quantity
                    (reserved_quantity b + reserved_delta id reservations) b))
    as Hb1 by (by rewrite Hdb1; simpl; rewrite apply_plan_lookup_delta, Hb).
  apply Hok1 in Hb1. apply Hok in Hb.
  unfold batch_ok in *. simpl in *. lia.
Qed.

Lemma cart_sale_confirmed_witness :
  let cart_items := [sample_item 1 40; sample_item 1 5] in
  let reserved := reserve_cart_items cart_items [] fixture_session in
  store_ok fixture_session ∧
  store_ok (confirm_sale
              match reserved.1 with Returned rs => rs | Raised _ => [] end
              7 "POS1" reserved.2).2.
Proof.
  intros cart_items reserved.
  assert (store_ok fixture_session) as Hok.
  { apply (bool_decide_unpack _). by vm_compute. }
  split; [exact Hok|].
  eapply (cart_sale_confirmed cart_items 7 "POS1" _ _ _ Hok).
  by vm_compute.
Defined.

(** *** The sale items *)

Lemma take_item_reservations_spec rounds reservations acc i :
  take_item_reservations rounds reservations acc i
  = ((acc ++ take rounds (drop i reservations))%list,
     (i + length (take rounds (drop i reservations)))%nat).
Proof.
  revert acc i. induction rounds as [|n IH]; intros acc i; simpl.
  { rewrite take_0, app_nil_r. simpl. f_equal. lia. }
  destruct (reservations !! i) as [r|] eqn:Hr.
  - rewrite IH. rewrite (drop_S _ _ _ Hr). simpl.
    rewrite <-app_assoc. simpl. f_equal. lia.
  - rewrite IH. apply lookup_ge_None in Hr.
    rewrite (drop_ge reservations i) by done. by rewrite !take_nil.
Qed.

Lemma head_take_drop {A} (l : list A) n i :
  head (take n (drop i l)) = match n with O => None | S _ => l !! i end.
Proof.
  destruct n as [|n]; [by rewrite take_0|].
  destruct (l !! i) as [x|] eqn:Hx.
  - by rewrite (drop_S _ _ _ Hx).
  - apply lookup_ge_None in Hx. by rewrite drop_ge.
Qed.

Lemma create_sale_items_length sale_id cart_items reservations i :
  length (create_sale_items sale_id cart_items reservations i)
  = length cart_items.
Proof.
  revert i. induction cart_items as [|item rest IH]; intros i; [done|].
  simpl. rewrite take_item_reservations_spec. simpl. by rewrite IH.
Qed.

Lemma create_sale_items_lookup sale_id pre item post reservations i s :
  i = s ∨ (length reservations ≤ i ∧ length reservations ≤ s)%nat →
  create_sale_items sale_id (pre ++ item :: post) reservations i !! length pre
  = Some (make_sale_item sale_id item
            (if 0 <? ci_quantity item
             then reservations !! (s + units_of pre)%nat else None)).
Proof.
  revert i s. induction pre as [|item' pre IH]; intros i s Hi.
  - cbn [app create_sale_items length units_of fmap list_fmap sum_list].
    rewrite take_item_reservations_spec. cbn [lookup list_lookup app].
    do 2 f_equal. rewrite head_take_drop, Nat.add_0_r.
    destruct (Z.ltb_spec 0 (ci_quantity item)) as [Hq|Hq].
    + destruct (Z.to_nat (ci_quantity item)) eqn:Hn; [lia|].
      destruct Hi as [->|[??]]; [done|].
      by rewrite !(proj2 (lookup_ge_None _ _)).
    + by replace (Z.to_nat (ci_quantity item)) with O by lia.
  - cbn [app create_sale_items length].
    rewrite take_item_reservations_spec. cbn [lookup list_lookup].
    erewrite IH; [do 3 f_equal|].
    + unfold units_of. rewrite fmap_cons. simpl.
      rewrite Nat.add_assoc. reflexivity.
    + rewrite length_take, length_drop. lia.
Qed.

(** X23: [process_sale] creates one sale item for each cart item, in the
    order of the cart, and hands out the reservation lines one per unit: the
    sale item of a cart item with a positive quantity names the batch of the
    line whose index is the number of units of the cart items before it, and
    no batch when the lines end before that index or the quantity is not
    positive. So the first cart item with a positive quantity names the first
    line, and the sale items after a cart item whose quantity reaches the
    number of lines name no batch. *)
Theorem sale_items_batches sale_id reservations :
  (∀ cart_items,
     length (create_sale_items sale_id cart_items reservations 0)
     = length cart_items) ∧
  (∀ pre item post,
     create_sale_items sale_id (pre ++ item :: post) reservations 0 !! length pre
     = Some (make_sale_item sale_id item
               (if 0 <? ci_quantity item
                then reservations !! units_of pre else None))) ∧
  (∀ pre item post si,
     (length reservations ≤ units_of pre)%nat →
     create_sale_items sale_id (pre ++ item :: post) reservations 0 !! length pre
     = Some si →
     si_inventory_batch_id si = None ∧ si_batch_number si = None).
Proof.
  split_and!.
  - intros. apply create_sale_items_length.
  - intros. by rewrite (create_sale_items_lookup _ _ _ _ _ 0%nat 0%nat); [|left].
  - intros pre item post si Hlen.
    rewrite (create_sale_items_lookup _ _ _ _ _ 0%nat 0%nat) by (by left).
    intros [= <-]. simpl.
    rewrite (proj2 (lookup_ge_None reservations (units_of pre))) by done.
    by destruct (0 <? _).
Qed.

Lemma total_quantity_of_unit (lines : list Reservation) :
  Forall (λ r, 0 < r_quantity r) lines →
  total_quantity_of lines ≤ 1 → 1 ≤ total_quantity_of lines →
  ∃ r, lines = [r].
Proof.
  intros Hpos Hle Hge. destruct lines as [|r [|r' rest]].
  - simpl in Hge. lia.
  - by exists r.
  - exfalso. apply Forall_cons in Hpos as [? Hpos].
    apply Forall_cons in Hpos as [? Hpos].
    assert (0 ≤ total_quantity_of rest).
    { clear -Hpos. induction Hpos; simpl; [done|]. lia. }
    simpl in Hle. change (foldr _ 0 rest) with (total_quantity_of rest) in Hle.
    lia.
Qed.

Lemma reserve_stock_unit pid db reservations db' :
  reserve_stock pid 1 true db = (Returned reservations, db') →
  ∃ r b, reservations = [r] ∧ r_quantity r = 1 ∧
         batches db !! r_batch_id r = Some b ∧ product_id b = pid.
Proof.
  intros Hrun.
  pose proof (reserve_stock_returned _ _ _ _ _ _ Hrun) as (Hplan & _ & Hge).
  pose proof (reservable_rows_positive pid true (batches db)) as Hpos.
  pose proof (greedy_plan_total _ 1 Hpos) as Htotal.
  rewrite <-Hplan in Htotal.
  destruct (total_quantity_of_unit reservations) as [r ->]; [|lia..|].
  { apply Forall_forall. intros line Hline. rewrite Hplan in Hline.
    apply (greedy_plan_lines _ _ _ Hpos) in Hline as (? & _ & ? & _). done. }
  assert (r ∈ greedy_plan 1 (reservable_rows pid true (batches db))) as Hr
    by (rewrite <-Hplan; apply list_elem_of_singleton; done).
  apply (greedy_plan_lines _ _ _ Hpos) in Hr as (b & Hb & _).
  apply elem_of_reservable_rows in Hb as (Hb & Hpid & _).
  exists r, b. split_and!; [done| |done..].
  simpl in Htotal, Hge. lia.
Qed.

Lemma reserve_cart_items_unit cart_items acc db reservations db' :
  Forall (λ item, ci_quantity item = 1) cart_items →
  reserve_cart_items cart_items acc db = (Returned reservations, db') →
  ∃ new,
    reservations = (acc ++ new)%list ∧
    Forall2 (λ item r, r_quantity r = 1 ∧
                       ∃ b, batches db !! r_batch_id r = Some b ∧
                            product_id b = ci_product_id item)
      cart_items new.
Proof.
  intros Hunit. revert acc db.
  induction Hunit as [|item rest Hq _ IH]; intros acc db; simpl.
  { intros [= <- _]. exists []. by rewrite app_nil_r. }
  rewrite Hq.
  destruct (reserve_stock (ci_product_id item) 1 true db)
    as [[rs|e] db1] eqn:Hrun; [|done].
  intros Hrest. apply IH in Hrest as (new & -> & Hnew).
  pose proof (reserve_stock_returned _ _ _ _ _ _ Hrun) as (_ & Hdb1 & _).
  apply reserve_stock_unit in Hrun as (r & b & -> & Hr & Hb & Hpid).
  exists (r :: new). split; [by rewrite <-app_assoc|].
  constructor; [eauto|].
  eapply Forall2_impl; [exact Hnew|]. intros item' r' (? & b' & Hb' & ?).
  split; [done|]. rewrite Hdb1 in Hb'. unfold with_batches in Hb'.
  cbn [batches] in Hb'. rewrite apply_plan_lookup_delta in Hb'.
  destruct (batches db !! r_batch_id r') as [b0|]; [|done].
  injection Hb' as <-. by exists b0.
Qed.

Lemma units_of_unit cart_items :
  Forall (λ item, ci_quantity item = 1) cart_items →
  units_of cart_items = length cart_items.
Proof.
  unfold units_of. induction 1 as [|item rest Hq _ IH]; [done|].
  rewrite fmap_cons. simpl. rewrite Hq, IH. done.
Qed.

(** X24: in a cart whose items all have quantity one, every sale item names
    a batch of its own product. When the reservation loop of [process_sale]
    has reserved such a cart, there is one line per cart item, each of one
    unit, and the sale item at each position carries the product of the cart
    item at that position and the batch and batch number of the line at that
    position, a batch of that product. *)
Theorem unit_cart_sale_items sale_id cart_items db reservations db1 :
  Forall (λ item, ci_quantity item = 1) cart_items →
  reserve_cart_items cart_items [] db = (Returned reservations, db1) →
  length reservations = length cart_items ∧
  ∀ k item,
    cart_items !! k = Some item →
    ∃ si r b,
      create_sale_items sale_id cart_items reservations 0 !! k = Some si ∧
      reservations !! k = Some r ∧
      si_product_id si = ci_product_id item ∧
      r_quantity r = 1 ∧
      si_inventory_batch_id si = Some (r_batch_id r) ∧
      si_batch_number si = Some (r_batch_number r) ∧
      batches db !! r_batch_id r = Some b ∧
      product_id b = ci_product_id item.
Proof.
  intros Hunit Hrun.
  apply reserve_cart_items_unit in Hrun as (new & -> & Hnew); [|done].
  simpl. split; [symmetry; by eapply Forall2_length|].
  intros k item Hk.
  destruct (Forall2_lookup_l _ _ _ _ _ Hnew Hk) as (r & Hr & Hq & b & Hb & Hpid).
  apply list_elem_of_split_length in Hk as (pre & post & -> & ->).
  exists (make_sale_item sale_id item (Some r)), r, b.
  split_and!; try done.
  rewrite (create_sale_items_lookup _ _ _ _ _ 0%nat 0%nat) by (by left).
  apply Forall_app in Hunit as [Hpre Hitem].
  apply Forall_cons in Hitem as [-> _]. simpl.
  by rewrite (units_of_unit _ Hpre), Hr.
Qed.

Lemma unit_cart_sale_items_witness :
  Forall (λ item, ci_quantity item = 1) [sample_item 1 1; sample_item 1 1] ∧
  length (match (reserve_cart_items [sample_item 1 1; sample_item 1 1] []
                   fixture_session).1
          with Returned rs => rs | Raised _ => [] end)
  = length [sample_item 1 1; sample_item 1 1].
Proof.
  assert (Forall (λ item, ci_quantity item = 1)
            [sample_item 1 1; sample_item 1 1]) as Hunit
    by (by repeat constructor).
  split; [exact Hunit|].
  eapply (unit_cart_sale_items 0 _ fixture_session _ _ Hunit).
  by vm_compute.
Defined.
